(** * mp_dash_components/helpers/scene.py

    A shallow embedding of the scene description module: the dataclasses
    ([Scene], [Spheres], [Cylinders], [Cubes], [Lines], [Surface], [Convex],
    [Arrows], [Labels]), the serializer [scene_to_json] with its local
    function [remove_defaults], and [merge_primitives].

    Modelling choices.
    - A Python [float] is modelled by its exact rational value ([Q]); NaN,
      infinities and the negative zero are left out.  Python's [==] on two
      floats is [Qeq_bool].
    - Python values built by [dataclasses.asdict] are the inductive [pyval];
      a [dict] is an association list in insertion order, as CPython keeps it.
    - Exceptions are values of [exn]; code that can raise lives in the monad
      [result]. *)

From Stdlib Require Import List String Ascii ZArith QArith Qabs Bool.
From Stdlib Require Import Permutation Lia DecimalString.
Import ListNotations.
Open Scope string_scope.
Open Scope list_scope.

Set Implicit Arguments.
Set Warnings "-register-all".

(** ** Exceptions *)

Inductive exn : Type :=
| TypeError
| KeyError
| IndexError.

Inductive result (A : Type) : Type :=
| Ok (a : A)
| Raise (e : exn).

Arguments Ok {A} a.
Arguments Raise {A} e.

Definition bind {A B : Type} (m : result A) (k : A -> result B) : result B :=
  match m with
  | Ok a => k a
  | Raise e => Raise e
  end.

Notation "x <- m ;; k" := (bind m (fun x => k))
  (at level 61, m at next level, right associativity).

(** [[f(x) for x in l]] for an [f] that can raise: left to right, stopping at
    the first exception. *)
Fixpoint mapM {A B : Type} (f : A -> result B) (l : list A) : result (list B) :=
  match l with
  | [] => Ok []
  | x :: rest =>
      y <- f x ;;
      ys <- mapM f rest ;;
      Ok (y :: ys)
  end.

(** A [for] loop over [l] threading the state [s], for a body that can raise. *)
Fixpoint foldM {A S : Type} (body : S -> A -> result S) (l : list A) (s : S)
  : result S :=
  match l with
  | [] => Ok s
  | x :: rest =>
      s' <- body s x ;;
      foldM body rest s'
  end.

(** ** Python values *)

Definition float := Q.

Inductive pyval : Type :=
| VNone
| VStr (s : string)
| VNum (x : float)
| VList (l : list pyval)
| VDict (d : list (string * pyval)).

Definition pydict := list (string * pyval).

(** [d[k] = v] on an insertion-ordered dict: an existing key keeps its place. *)
Fixpoint dict_set {V : Type} (d : list (string * V)) (k : string) (v : V)
  : list (string * V) :=
  match d with
  | [] => [(k, v)]
  | (k', v') :: rest =>
      if String.eqb k' k then (k', v) :: rest
      else (k', v') :: dict_set rest k v
  end.

(** [d.get(k)] *)
Fixpoint dict_get {V : Type} (d : list (string * V)) (k : string) : option V :=
  match d with
  | [] => None
  | (k', v') :: rest => if String.eqb k' k then Some v' else dict_get rest k
  end.

(** [d[k]], raising [KeyError] on a missing key. *)
Definition dict_item {V : Type} (d : list (string * V)) (k : string) : result V :=
  match dict_get d k with
  | Some v => Ok v
  | None => Raise KeyError
  end.

Definition keys {V : Type} (d : list (string * V)) : list string := map fst d.

(** ** The dataclasses *)

Definition vector := list float.

Definition opt_str (o : option string) : pyval :=
  match o with Some s => VStr s | None => VNone end.

Definition opt_num (o : option float) : pyval :=
  match o with Some x => VNum x | None => VNone end.

Definition vec_val (v : vector) : pyval := VList (map VNum v).

Definition vecs_val (l : list vector) : pyval := VList (map vec_val l).

(** [f"{c}"] for an optional string. *)
Definition str_color (c : option string) : string :=
  match c with
  | Some s => s
  | None => "None"
  end.

(** [f"{x}"] for an optional float, given [str] on floats. *)
Definition str_opt_float (str_float : float -> string) (x : option float) : string :=
  match x with
  | Some q => str_float q
  | None => "None"
  end.

(** Python's [==] on lists and on optional values, given [==] on the
    elements. *)
Fixpoint list_eqb {A : Type} (eqb : A -> A -> bool) (l1 l2 : list A) : bool :=
  match l1, l2 with
  | [], [] => true
  | x :: r1, y :: r2 => eqb x y && list_eqb eqb r1 r2
  | _, _ => false
  end.

Definition option_eqb {A : Type} (eqb : A -> A -> bool) (o1 o2 : option A) : bool :=
  match o1, o2 with
  | None, None => true
  | Some x, Some y => eqb x y
  | _, _ => false
  end.

Definition vector_eqb : vector -> vector -> bool := list_eqb Qeq_bool.

Module Spheres.
Record t : Type := mk {
  positions : list vector;
  color : option string;
  radius : option float;
  phiStart : option float;
  phiEnd : option float;
  ellipsoids : option (list (string * list vector))
}.

Definition type : string := "spheres".

Definition ellipsoids_val (e : option (list (string * list vector))) : pyval :=
  match e with
  | Some d => VDict (map (fun kv => (fst kv, vecs_val (snd kv))) d)
  | None => VNone
  end.

Definition asdict (s : t) : pydict :=
  [ ("positions", vecs_val (positions s));
    ("color", opt_str (color s));
    ("radius", opt_num (radius s));
    ("phiStart", opt_num (phiStart s));
    ("phiEnd", opt_num (phiEnd s));
    ("ellipsoids", ellipsoids_val (ellipsoids s));
    ("type", VStr type) ].
End Spheres.

Module Cylinders.
Record t : Type := mk {
  positionPairs : list (list vector);
  color : option string;
  radius : option float
}.

Definition type : string := "cylinders".

Definition asdict (c : t) : pydict :=
  [ ("positionPairs", VList (map vecs_val (positionPairs c)));
    ("color", opt_str (color c));
    ("radius", opt_num (radius c));
    ("type", VStr type) ].

(** The [__eq__] that [@dataclass] generates: the tuples of all fields are
    compared. *)
Definition __eq__ (a b : t) : bool :=
  list_eqb (list_eqb vector_eqb) (positionPairs a) (positionPairs b)
  && option_eqb String.eqb (color a) (color b)
  && option_eqb Qeq_bool (radius a) (radius b)
  && String.eqb type type.

Section Hash.
(** The builtins [hash] (on [str]) and [str] (on [float]). *)
Variable hash : string -> Z.
Variable str_float : float -> string.

Definition __hash__ (self : t) : Z :=
  hash (str_color (color self) ++ "_"
          ++ str_opt_float str_float (radius self))%string.
End Hash.
End Cylinders.

Module Cubes.
Record t : Type := mk {
  positions : list vector;
  color : option string;
  width : option float
}.

Definition type : string := "spheres".

Definition asdict (c : t) : pydict :=
  [ ("positions", vecs_val (positions c));
    ("color", opt_str (color c));
    ("width", opt_num (width c));
    ("type", VStr type) ].

(** The [__eq__] that [@dataclass] generates: the tuples of all fields are
    compared. *)
Definition __eq__ (a b : t) : bool :=
  list_eqb vector_eqb (positions a) (positions b)
  && option_eqb String.eqb (color a) (color b)
  && option_eqb Qeq_bool (width a) (width b)
  && String.eqb type type.

Section Hash.
(** The builtins [hash] (on [str]) and [str] (on [float]). *)
Variable hash : string -> Z.
Variable str_float : float -> string.

Definition __hash__ (self : t) : Z :=
  hash (str_color (color self) ++ "_"
          ++ str_opt_float str_float (width self))%string.
End Hash.
End Cubes.

Module Lines.
Record t : Type := mk {
  positions : list vector;
  color : option string;
  lineWidth : option float;
  scale : option float;
  dashSize : option float;
  gapSize : option float
}.

Definition type : string := "lines".

Definition asdict (l : t) : pydict :=
  [ ("positions", vecs_val (positions l));
    ("color", opt_str (color l));
    ("lineWidth", opt_num (lineWidth l));
    ("scale", opt_num (scale l));
    ("dashSize", opt_num (dashSize l));
    ("gapSize", opt_num (gapSize l));
    ("type", VStr type) ].
End Lines.

Module Surface.
Record t : Type := mk {
  positions : list vector;
  normals : option (list vector);
  color : option string;
  opacity : option float
}.

Definition type : string := "surface".

Definition asdict (s : t) : pydict :=
  [ ("positions", vecs_val (positions s));
    ("normals", match normals s with Some n => vecs_val n | None => VNone end);
    ("color", opt_str (color s));
    ("opacity", opt_num (opacity s));
    ("type", VStr type) ].
End Surface.

Module Convex.
Record t : Type := mk {
  positions : list vector;
  color : option string;
  opacity : option float
}.

Definition type : string := "convex".

Definition asdict (c : t) : pydict :=
  [ ("positions", vecs_val (positions c));
    ("color", opt_str (color c));
    ("opacity", opt_num (opacity c));
    ("type", VStr type) ].
End Convex.

Module Arrows.
Definition type : string := "arrows".
Definition asdict : pydict := [ ("type", VStr type) ].
End Arrows.

Module Labels.
Definition type : string := "labels".
Definition asdict : pydict := [ ("type", VStr type) ].
End Labels.

(** The geometric primitives; [isinstance] is the constructor test. *)
Inductive Primitive : Type :=
| PSpheres (s : Spheres.t)
| PCylinders (c : Cylinders.t)
| PCubes (c : Cubes.t)
| PLines (l : Lines.t)
| PSurface (s : Surface.t)
| PConvex (c : Convex.t)
| PArrows
| PLabels.

(** A [Scene] has a name and a list of primitives or other Scenes. *)
Inductive Scene : Type :=
| mkScene (name : string) (contents : list item)
with item : Type :=
| IPrim (p : Primitive)
| IScene (s : Scene).

Definition name (s : Scene) : string :=
  match s with mkScene n _ => n end.

Definition contents (s : Scene) : list item :=
  match s with mkScene _ c => c end.

(** ** dataclasses.asdict *)

Definition asdict_prim (p : Primitive) : pydict :=
  match p with
  | PSpheres s => Spheres.asdict s
  | PCylinders c => Cylinders.asdict c
  | PCubes c => Cubes.asdict c
  | PLines l => Lines.asdict l
  | PSurface s => Surface.asdict s
  | PConvex c => Convex.asdict c
  | PArrows => Arrows.asdict
  | PLabels => Labels.asdict
  end.

Fixpoint asdict_scene (s : Scene) : pydict :=
  match s with
  | mkScene n c =>
      [ ("name", VStr n);
        ("contents", VList (map (fun i => VDict (asdict_item i)) c)) ]
  end
with asdict_item (i : item) : pydict :=
  match i with
  | IPrim p => asdict_prim p
  | IScene s => asdict_scene s
  end.

(** ** scene_to_json *)

(** The body of the loop of [remove_defaults], given the function itself for
    the recursive call on a dict value. *)
Definition trim_step (rd : pyval -> pyval) (trimmed_dict : pydict)
  (kv : string * pyval) : pydict :=
  let (k, v) := kv in
  let v := match v with VDict _ => rd v | _ => v end in
  match v with
  | VNone => trimmed_dict
  | _ => dict_set trimmed_dict k v
  end.

(** [trimmed_dict or None] *)
Definition or_None (trimmed_dict : pydict) : pyval :=
  match trimmed_dict with
  | [] => VNone
  | _ => VDict trimmed_dict
  end.

(** [remove_defaults] on the value [VDict scene_dict]; a value that is not a
    dict is never passed to it. *)
Fixpoint remove_defaults_val (v : pyval) : pyval :=
  match v with
  | VDict scene_dict =>
      or_None
        ((fix loop (items : pydict) (trimmed_dict : pydict) : pydict :=
            match items with
            | [] => trimmed_dict
            | (k, v) :: rest =>
                let v := match v with
                         | VDict _ => remove_defaults_val v
                         | _ => v
                         end in
                loop rest match v with
                          | VNone => trimmed_dict
                          | _ => dict_set trimmed_dict k v
                          end
            end) scene_dict [])
  | _ => v
  end.

Definition remove_defaults (scene_dict : pydict) : pyval :=
  remove_defaults_val (VDict scene_dict).

(** [scene_to_json] accepts any dataclass instance: a Scene or, by duck
    typing, a primitive. *)
Definition scene_to_json (scene : item) : pyval :=
  remove_defaults (asdict_item scene).

(** ** Formatting

    [format(x, ".2f")]: the decimal expansion of [x] with two digits after
    the point, the exact value rounded half to even, a minus sign for a
    negative [x]. *)

Definition round_half_even (q : Q) : Z :=
  let n := Qnum q in
  let d := Zpos (Qden q) in
  let fl := (n / d)%Z in
  let r2 := (2 * (n mod d))%Z in
  if (r2 <? d)%Z then fl
  else if (d <? r2)%Z then (fl + 1)%Z
  else if Z.even fl then fl else (fl + 1)%Z.

Definition str_Z (z : Z) : string :=
  NilZero.string_of_uint (N.to_uint (Z.to_N z)).

Definition two_digits (z : Z) : string :=
  (str_Z (z / 10) ++ str_Z (z mod 10))%string.

Definition fmt_2f (x : float) : string :=
  let h := round_half_even (Qabs x * 100) in
  ((if (Qnum x <? 0)%Z then "-" else "")
     ++ str_Z (h / 100) ++ "." ++ two_digits (h mod 100))%string.

(** [f"{x:.2f}"] for an optional float: [None] does not support the format
    string. *)
Definition format_2f (x : option float) : result string :=
  match x with
  | Some q => Ok (fmt_2f q)
  | None => Raise TypeError
  end.

(** ** merge_primitives *)

Definition spheres_key (primitive : Spheres.t) : result string :=
  r <- format_2f (Spheres.radius primitive) ;;
  ps <- format_2f (Spheres.phiStart primitive) ;;
  pe <- format_2f (Spheres.phiEnd primitive) ;;
  Ok (str_color (Spheres.color primitive) ++ "_" ++ r ++ "_" ++ ps ++ "_" ++ pe)%string.

Definition cylinders_key (primitive : Cylinders.t) : result string :=
  r <- format_2f (Cylinders.radius primitive) ;;
  Ok (str_color (Cylinders.color primitive) ++ "_" ++ r)%string.

(** [d[key].append(x)] on a [defaultdict(list)]: a new key goes to the end. *)
Fixpoint dd_append {A : Type} (d : list (string * list A)) (key : string) (x : A)
  : list (string * list A) :=
  match d with
  | [] => [(key, [x])]
  | (k, l) :: rest =>
      if String.eqb k key then (k, l ++ [x]) :: rest
      else (k, l) :: dd_append rest key x
  end.

(** The three accumulators of the first loop. *)
Record buckets : Type := mkBuckets {
  spheres : list (string * list Spheres.t);
  cylinders : list (string * list Cylinders.t);
  remainder : list Primitive
}.

Definition no_buckets : buckets := mkBuckets [] [] [].

Definition classify (b : buckets) (primitive : Primitive) : result buckets :=
  match primitive with
  | PSpheres s =>
      key <- spheres_key s ;;
      Ok (mkBuckets (dd_append (spheres b) key s) (cylinders b) (remainder b))
  | PCylinders c =>
      key <- cylinders_key c ;;
      Ok (mkBuckets (spheres b) (dd_append (cylinders b) key c) (remainder b))
  | _ =>
      Ok (mkBuckets (spheres b) (cylinders b) (remainder b ++ [primitive]))
  end.

(** [list(chain.from_iterable(l))]: iterating over [None] is a [TypeError]. *)
Fixpoint chain_from_iterable {A : Type} (l : list (option (list A)))
  : result (list A) :=
  match l with
  | [] => Ok []
  | Some x :: rest =>
      r <- chain_from_iterable rest ;;
      Ok (x ++ r)
  | None :: _ => Raise TypeError
  end.

(** [sphere.ellipsoids[k] if sphere.ellipsoids else None]: an empty dict is
    falsy like [None]. *)
Definition ellipsoids_item (k : string) (sphere : Spheres.t)
  : result (option (list vector)) :=
  match Spheres.ellipsoids sphere with
  | Some ((_ :: _) as d) =>
      v <- dict_item d k ;;
      Ok (Some v)
  | _ => Ok None
  end.

(** [any(l)] for a list of lists: a list is truthy when it is not empty. *)
Definition any (l : list vector) : bool :=
  existsb (fun v => match v with [] => false | _ => true end) l.

(** [l[0]] *)
Definition first {A : Type} (l : list A) : result A :=
  match l with
  | x :: _ => Ok x
  | [] => Raise IndexError
  end.

(** The body of the loop over [spheres.items()]. *)
Definition merge_spheres (sphere_list : list Spheres.t) : result Spheres.t :=
  let new_positions := List.concat (map Spheres.positions sphere_list) in
  rotations <- mapM (ellipsoids_item "rotations") sphere_list ;;
  new_ellipsoids_rotations <- chain_from_iterable rotations ;;
  scales <- mapM (ellipsoids_item "scales") sphere_list ;;
  new_ellipsoids_scales <- chain_from_iterable scales ;;
  let new_ellipsoids :=
    if any new_ellipsoids_rotations
    then Some [ ("rotations", new_ellipsoids_rotations);
                ("scales", new_ellipsoids_scales) ]
    else None in
  s0 <- first sphere_list ;;
  Ok (Spheres.mk new_positions (Spheres.color s0) (Spheres.radius s0)
        (Spheres.phiStart s0) (Spheres.phiEnd s0) new_ellipsoids).

(** The body of the loop over [cylinders.items()]. *)
Definition merge_cylinders (cylinder_list : list Cylinders.t) : result Cylinders.t :=
  let new_positionPairs := List.concat (map Cylinders.positionPairs cylinder_list) in
  c0 <- first cylinder_list ;;
  Ok (Cylinders.mk new_positionPairs (Cylinders.color c0) (Cylinders.radius c0)).

Definition merge_primitives (primitives : list Primitive)
  : result (list Primitive) :=
  b <- foldM classify primitives no_buckets ;;
  new_spheres <- mapM (fun kv => merge_spheres (snd kv)) (spheres b) ;;
  new_cylinders <- mapM (fun kv => merge_cylinders (snd kv)) (cylinders b) ;;
  Ok (map PSpheres new_spheres ++ map PCylinders new_cylinders ++ remainder b).

(** ** Observations on serialized values *)

(** The keys of a serialized node; a value that is not a dict has none. *)
Definition json_keys (v : pyval) : list string :=
  match v with
  | VDict d => keys d
  | _ => []
  end.

(** [v[k]] on a serialized node, [None] when [v] is not a dict or lacks [k]. *)
Definition json_get (v : pyval) (k : string) : option pyval :=
  match v with
  | VDict d => dict_get d k
  | _ => None
  end.

Definition is_None (v : pyval) : bool :=
  match v with VNone => true | _ => false end.

Definition is_dict (v : pyval) : bool :=
  match v with VDict _ => true | _ => false end.

(** ** Observations on lists of primitives *)

Definition is_Spheres (p : Primitive) : bool :=
  match p with PSpheres _ => true | _ => false end.

Definition is_Cylinders (p : Primitive) : bool :=
  match p with PCylinders _ => true | _ => false end.

Definition is_Cubes (p : Primitive) : bool :=
  match p with PCubes _ => true | _ => false end.

(** The primitives that are neither Spheres nor Cylinders, in order. *)
Definition unmerged (l : list Primitive) : list Primitive :=
  filter (fun p => negb (is_Spheres p || is_Cylinders p)) l.

(** The Spheres and the Cylinders of a list, in order. *)
Definition spheres_of (l : list Primitive) : list Spheres.t :=
  flat_map (fun p => match p with PSpheres s => [s] | _ => [] end) l.

Definition cylinders_of (l : list Primitive) : list Cylinders.t :=
  flat_map (fun p => match p with PCylinders c => [c] | _ => [] end) l.

(** All position vectors held by Spheres, and all position pairs held by
    Cylinders, gathered over a list of primitives. *)
Definition sphere_positions (l : list Primitive) : list vector :=
  List.concat (map Spheres.positions (spheres_of l)).

Definition cylinder_positionPairs (l : list Primitive) : list (list vector) :=
  List.concat (map Cylinders.positionPairs (cylinders_of l)).

(** ** The inputs that merge_primitives gets through *)

Definition is_set {A : Type} (o : option A) : bool :=
  match o with Some _ => true | None => false end.

(** The fields formatted into the key are all given. *)
Definition keys_given (p : Primitive) : bool :=
  match p with
  | PSpheres s =>
      is_set (Spheres.radius s) && is_set (Spheres.phiStart s)
      && is_set (Spheres.phiEnd s)
  | PCylinders c => is_set (Cylinders.radius c)
  | _ => true
  end.

(** [ellipsoids] is a dict that is not empty and has both lists. *)
Definition has_ellipsoid_lists (s : Spheres.t) : bool :=
  match Spheres.ellipsoids s with
  | Some ((_ :: _) as d) =>
      is_set (dict_get d "rotations") && is_set (dict_get d "scales")
  | _ => false
  end.

(** No group of a [defaultdict(list)] is empty. *)
Definition nonempty_groups {A : Type} (d : list (string * list A)) : Prop :=
  Forall (fun kv => snd kv <> []) d.

(** Every group sits under a key of its own, which is the key of each of its
    members. *)
Definition keyed_groups {A : Type} (keyf : A -> result string)
  (d : list (string * list A)) : Prop :=
  NoDup (keys d)
  /\ Forall (fun kv => Forall (fun x => keyf x = Ok (fst kv)) (snd kv)) d.

(** The dict whose groups are the singletons of [l], under the keys [ks]. *)
Definition singletons {A : Type} (ks : list string) (l : list A)
  : list (string * list A) :=
  combine ks (map (fun x => [x]) l).

Definition fully_given (p : Primitive) : bool :=
  keys_given p
  && match p with
     | PSpheres s => has_ellipsoid_lists s
     | _ => true
     end.

(** ** Sample inputs *)

Module Sample.
Definition origin : vector := [0; 0; 0]%Q.
Definition ones : vector := [1; 1; 1]%Q.

(** [{'rotations': [[1,0,0]], 'scales': [[1,1,1]]}] *)
Definition one_ellipsoid : list (string * list vector) :=
  [ ("rotations", [[1; 0; 0]%Q]); ("scales", [ones]) ].

(** [Spheres(positions=[[0,0,0]], color="#fff", radius=1.0)] and
    [Spheres(positions=[[1,1,1]], color="#fff", radius=1.0)] *)
Definition white_at_origin : Spheres.t :=
  Spheres.mk [origin] (Some "#fff") (Some 1.0%Q) (Some 0%Q) None None.
Definition white_at_ones : Spheres.t :=
  Spheres.mk [ones] (Some "#fff") (Some 1.0%Q) (Some 0%Q) None None.

(** The same two with [phiEnd=6.28]. *)
Definition closed_at_origin : Spheres.t :=
  Spheres.mk [origin] (Some "#fff") (Some 1.0%Q) (Some 0%Q) (Some 6.28%Q) None.
Definition closed_at_ones : Spheres.t :=
  Spheres.mk [ones] (Some "#fff") (Some 1.0%Q) (Some 0%Q) (Some 6.28%Q) None.

(** The same two with [phiEnd=6.28] and [ellipsoids] given; the second has
    a radius that rounds to the same two decimals. *)
Definition full_at_origin : Spheres.t :=
  Spheres.mk [origin] (Some "#fff") (Some 1.0%Q) (Some 0%Q) (Some 6.28%Q)
    (Some one_ellipsoid).
Definition full_at_ones : Spheres.t :=
  Spheres.mk [ones] (Some "#fff") (Some 1.001%Q) (Some 0%Q) (Some 6.28%Q)
    (Some one_ellipsoid).

(** [Spheres(positions=[], color="#fff", radius=1.0, phiEnd=6.28,
    ellipsoids={'rotations': [], 'scales': []})] and what merging it
    gives. *)
Definition no_spheres : Spheres.t :=
  Spheres.mk [] (Some "#fff") (Some 1.0%Q) (Some 0%Q) (Some 6.28%Q)
    (Some [ ("rotations", []); ("scales", []) ]).
Definition no_spheres_merged : Spheres.t :=
  Spheres.mk [] (Some "#fff") (Some 1.0%Q) (Some 0%Q) (Some 6.28%Q) None.

(** [Cylinders(positionPairs=[[[0,0,0],[1,1,1]]], color="#fff", radius=0.5)]
    and [Cubes(positions=[[1,1,1]], color="#fff", width=1.0)] *)
Definition bond : Cylinders.t :=
  Cylinders.mk [[origin; ones]] (Some "#fff") (Some 0.5%Q).
Definition white_cube : Cubes.t :=
  Cubes.mk [ones] (Some "#fff") (Some 1.0%Q).
End Sample.

(** ** Observations on pruning *)

(** What the loop of [remove_defaults] makes of a value before the test
    against [None]: a dict is pruned, anything else is left alone. *)
Definition pruned (v : pyval) : pyval :=
  match v with
  | VDict _ => remove_defaults_val v
  | _ => v
  end.

(** The items of [d] whose pruned value is not [None], in the order of [d]. *)
Definition kept_items (d : pydict) : pydict :=
  flat_map (fun kv => match pruned (snd kv) with
                      | VNone => []
                      | v => [(fst kv, v)]
                      end) d.

(** No dict reached through dict values is empty or binds a key to [None];
    lists are not looked into. *)
Fixpoint clean (v : pyval) : bool :=
  match v with
  | VDict d =>
      match d with [] => false | _ => true end
      && forallb (fun kv => negb (is_None (snd kv)) && clean (snd kv)) d
  | _ => true
  end.

(** The [type] field of each dataclass. *)
Definition type_of (p : Primitive) : string :=
  match p with
  | PSpheres _ => Spheres.type
  | PCylinders _ => Cylinders.type
  | PCubes _ => Cubes.type
  | PLines _ => Lines.type
  | PSurface _ => Surface.type
  | PConvex _ => Convex.type
  | PArrows => Arrows.type
  | PLabels => Labels.type
  end.

(** ** Observations on groups *)

(** [sphere.ellipsoids[k]] where it is there, the empty list elsewhere. *)
Definition ellipsoid_list (k : string) (s : Spheres.t) : list vector :=
  match Spheres.ellipsoids s with
  | Some d => match dict_get d k with Some l => l | None => [] end
  | None => []
  end.

(** ** Grouping, said without a loop *)

(** The keys of [l], each once, in the order of their first occurrence. *)
Fixpoint first_seen (l : list string) : list string :=
  match l with
  | [] => []
  | k :: rest =>
      k :: filter (fun k' => negb (String.eqb k k')) (first_seen rest)
  end.

(** The elements of [l] filed under [k], in the order of [l]. *)
Definition members {A : Type} (k : string) (l : list (string * A)) : list A :=
  map snd (filter (fun kx => String.eqb (fst kx) k) l).

(** One group for each key, in the order of first occurrence. *)
Definition group_by {A : Type} (l : list (string * A))
  : list (string * list A) :=
  map (fun k => (k, members k l)) (first_seen (map fst l)).

(** Each element paired with its key; the first key that cannot be formed
    raises. *)
Definition keyed {A : Type} (keyf : A -> result string) (l : list A)
  : result (list (string * A)) :=
  mapM (fun x => k <- keyf x ;; Ok (k, x)) l.

(** Filing the keyed elements of [l] one after the other into [d]. *)
Definition dd_extend {A : Type} (d : list (string * list A))
  (l : list (string * A)) : list (string * list A) :=
  fold_left (fun d kx => dd_append d (fst kx) (snd kx)) l d.

(** [merge_primitives] as a group-by. *)
Definition merge_by_key (primitives : list Primitive)
  : result (list Primitive) :=
  ls <- keyed spheres_key (spheres_of primitives) ;;
  lc <- keyed cylinders_key (cylinders_of primitives) ;;
  new_spheres <- mapM (fun kv => merge_spheres (snd kv)) (group_by ls) ;;
  new_cylinders <- mapM (fun kv => merge_cylinders (snd kv)) (group_by lc) ;;
  Ok (map PSpheres new_spheres ++ map PCylinders new_cylinders
        ++ unmerged primitives).

(** ** Observations on keys *)

Fixpoint has_underscore (s : string) : bool :=
  match s with
  | EmptyString => false
  | String c rest => Ascii.eqb c "_" || has_underscore rest
  end.

(** * Properties of the serializer *)

Section SerializerFacts.

(** [remove_defaults] is the loop [trim_step] run over the items, followed
    by [or None]. *)
Lemma remove_defaults_unfold (scene_dict : pydict) :
  remove_defaults scene_dict
  = or_None (fold_left (trim_step remove_defaults_val) scene_dict []).
Proof.
  unfold remove_defaults. cbn [remove_defaults_val]. f_equal.
  generalize (@nil (string * pyval)) as acc.
  induction scene_dict as [|[k v] rest IH]; intro acc; [reflexivity|].
  cbn [fold_left trim_step]. rewrite <- IH. reflexivity.
Qed.

Lemma dict_get_set_same {V : Type} (d : list (string * V)) k v :
  dict_get (dict_set d k v) k = Some v.
Proof.
  induction d as [|[k' v'] d IH]; cbn.
  - now rewrite String.eqb_refl.
  - destruct (String.eqb k' k) eqn:E; cbn; rewrite E; auto.
Qed.

Lemma dict_get_set_other {V : Type} (d : list (string * V)) k k' v :
  k <> k' -> dict_get (dict_set d k v) k' = dict_get d k'.
Proof.
  intro Hne. induction d as [|[k0 v0] d IH]; cbn.
  - destruct (String.eqb k k') eqn:E; [apply String.eqb_eq in E; contradiction|reflexivity].
  - destruct (String.eqb k0 k) eqn:E; cbn.
    + apply String.eqb_eq in E; subst k0.
      destruct (String.eqb k k') eqn:E'; [apply String.eqb_eq in E'; contradiction|reflexivity].
    + destruct (String.eqb k0 k'); auto.
Qed.

(** One step of the loop leaves every other key of [trimmed_dict] alone. *)
Lemma trim_step_other rd t k v k' :
  k <> k' -> dict_get (trim_step rd t (k, v)) k' = dict_get t k'.
Proof.
  intro Hne. unfold trim_step.
  destruct v; try (apply dict_get_set_other; assumption); try reflexivity.
  destruct (rd (VDict d)); try (apply dict_get_set_other; assumption); reflexivity.
Qed.

Lemma trim_loop_other rd items : forall t k',
  ~ In k' (keys items) ->
  dict_get (fold_left (trim_step rd) items t) k' = dict_get t k'.
Proof.
  induction items as [|[k v] rest IH]; intros t k' Hnin; [reflexivity|].
  cbn [fold_left]. rewrite IH.
  - apply trim_step_other. intro; subst; apply Hnin; now left.
  - intro Hin; apply Hnin; now right.
Qed.

(** A value that is neither [None] nor a dict survives the loop under its
    key. *)
Lemma trim_loop_keeps rd items : forall t k v,
  NoDup (keys items) ->
  dict_get items k = Some v ->
  is_None v = false -> is_dict v = false ->
  dict_get (fold_left (trim_step rd) items t) k = Some v.
Proof.
  induction items as [|[k0 v0] rest IH]; intros t k v Hnd Hget HN HD;
    [discriminate|].
  cbn in Hget. cbn [keys map fst] in Hnd. inversion Hnd as [|? ? Hnin Hnd']; subst.
  cbn [fold_left].
  destruct (String.eqb k0 k) eqn:E.
  - apply String.eqb_eq in E; subst k0. injection Hget as ->.
    rewrite trim_loop_other by assumption.
    unfold trim_step. destruct v; try discriminate; apply dict_get_set_same.
  - apply IH; assumption.
Qed.

Lemma remove_defaults_keeps (d : pydict) k v :
  NoDup (keys d) ->
  dict_get d k = Some v ->
  is_None v = false -> is_dict v = false ->
  json_get (remove_defaults d) k = Some v.
Proof.
  intros Hnd Hget HN HD. rewrite remove_defaults_unfold.
  pose proof (trim_loop_keeps remove_defaults_val d [] k Hnd Hget HN HD) as H.
  destruct (fold_left (trim_step remove_defaults_val) d []) eqn:E; [discriminate|exact H].
Qed.

(** The loop never stores [None]. *)
Lemma dict_set_no_None (t : pydict) k v :
  (forall k', dict_get t k' <> Some VNone) -> v <> VNone ->
  forall k', dict_get (dict_set t k v) k' <> Some VNone.
Proof.
  intros Ht Hv k'. destruct (string_dec k k') as [->|Hne].
  - rewrite dict_get_set_same. congruence.
  - rewrite dict_get_set_other by assumption. apply Ht.
Qed.

Lemma trim_loop_no_None rd items : forall t,
  (forall k', dict_get t k' <> Some VNone) ->
  forall k', dict_get (fold_left (trim_step rd) items t) k' <> Some VNone.
Proof.
  induction items as [|[k v] rest IH]; intros t Ht; [exact Ht|].
  cbn [fold_left]. apply IH. unfold trim_step.
  destruct v; try exact Ht; try (apply dict_set_no_None; [exact Ht|discriminate]).
  destruct (rd (VDict d)); try exact Ht;
    apply dict_set_no_None; (exact Ht || discriminate).
Qed.

(** At the top level of the dict it is given, [remove_defaults] leaves no
    key bound to [None]. *)
Lemma remove_defaults_top_no_None (d : pydict) k :
  json_get (remove_defaults d) k <> Some VNone.
Proof.
  rewrite remove_defaults_unfold.
  assert (H : forall k', dict_get (fold_left (trim_step remove_defaults_val) d []) k'
                         <> Some VNone).
  { apply trim_loop_no_None. intros k'; discriminate. }
  destruct (fold_left (trim_step remove_defaults_val) d []) eqn:E; [discriminate|].
  cbn [or_None json_get]. apply H.
Qed.

(** A list is kept as it is: the contents of a Scene are not pruned. *)
Lemma scene_to_json_scene (n : string) (c : list item) :
  scene_to_json (IScene (mkScene n c))
  = VDict [ ("name", VStr n);
            ("contents", VList (map (fun i => VDict (asdict_item i)) c)) ].
Proof. reflexivity. Qed.

Lemma asdict_prim_NoDup (p : Primitive) : NoDup (keys (asdict_prim p)).
Proof.
  destruct p; cbn;
    repeat (constructor; [cbn; intuition discriminate|]); constructor.
Qed.

End SerializerFacts.

(** * Properties of the merger *)

Lemma bind_Ok {A B : Type} (m : result A) (k : A -> result B) (r : B) :
  bind m k = Ok r -> exists a, m = Ok a /\ k a = Ok r.
Proof. destruct m as [a|e]; cbn; [eauto|discriminate]. Qed.

(** Splits every hypothesis [x <- m ;; k = Ok r] into [m = Ok a] and
    [k a = Ok r]. *)
Ltac inv_bind :=
  repeat match goal with
    | H : bind _ _ = Ok _ |- _ =>
        let a := fresh "a" in
        let Ha := fresh "Ha" in
        apply bind_Ok in H; destruct H as (a & Ha & H)
    | H : Ok _ = Ok _ |- _ => injection H as H
    end.

Section MergerFacts.

(** *** When the loops return *)

Lemma mapM_returns {A B : Type} (f : A -> result B) (l : list A) :
  (exists ys, mapM f l = Ok ys) <-> Forall (fun x => exists y, f x = Ok y) l.
Proof.
  induction l as [|x l IH]; cbn [mapM].
  - split; [constructor|eauto].
  - split.
    + intros (ys & H). inv_bind. constructor; [eauto|]. apply IH. eauto.
    + intro H. inversion H as [|? ? (y & Hy) Hl]; subst.
      apply IH in Hl. destruct Hl as (ys & Hys).
      exists (y :: ys). now rewrite Hy, Hys.
Qed.

Lemma classify_returns b p :
  (exists b', classify b p = Ok b') <-> keys_given p = true.
Proof.
  destruct p as [s|c| | | | | |]; cbn;
    try (split; [reflexivity|eauto]).
  - unfold spheres_key, format_2f.
    destruct (Spheres.radius s), (Spheres.phiStart s), (Spheres.phiEnd s);
      cbn; split; eauto; try discriminate; intros (b' & H); discriminate.
  - unfold cylinders_key, format_2f.
    destruct (Cylinders.radius c); cbn; split; eauto; try discriminate;
      intros (b' & H); discriminate.
Qed.

Lemma foldM_classify_returns xs : forall b,
  (exists b', foldM classify xs b = Ok b') <-> forallb keys_given xs = true.
Proof.
  induction xs as [|p xs IH]; intro b; cbn [foldM forallb].
  - split; eauto.
  - rewrite andb_true_iff, <- (classify_returns b p). split.
    + intros (b' & H). inv_bind. split; [eauto|]. apply (IH a). eauto.
    + intros ((b1 & H1) & H2). apply (IH b1) in H2. destruct H2 as (b' & H2).
      exists b'. now rewrite H1.
Qed.

Lemma dd_append_nonempty {A : Type} (d : list (string * list A)) key x :
  nonempty_groups d -> nonempty_groups (dd_append d key x).
Proof.
  unfold nonempty_groups. induction d as [|[k l] rest IH]; cbn; intro H.
  - repeat constructor. discriminate.
  - inversion H as [|? ? Hl Hrest]; subst.
    destruct (String.eqb k key); constructor; auto.
    cbn. now destruct l.
Qed.

Lemma foldM_classify_nonempty xs : forall b b',
  foldM classify xs b = Ok b' ->
  nonempty_groups (spheres b) -> nonempty_groups (cylinders b) ->
  nonempty_groups (spheres b') /\ nonempty_groups (cylinders b').
Proof.
  induction xs as [|p xs IH]; cbn [foldM]; intros b b' H Hs Hc.
  - injection H as <-. now split.
  - inv_bind. apply (IH _ _ H); destruct p; cbn in Ha; inv_bind; subst a;
      cbn; auto using dd_append_nonempty.
Qed.

(** Gathering one of the two ellipsoid lists over a group returns exactly
    when every member has it. *)
Lemma gather_returns k g :
  (exists l r, mapM (ellipsoids_item k) g = Ok l
               /\ chain_from_iterable l = Ok r)
  <-> Forall (fun s => exists v, ellipsoids_item k s = Ok (Some v)) g.
Proof.
  induction g as [|s g IH]; cbn [mapM].
  - split; [constructor|]. intros _. now exists [], [].
  - split.
    + intros (l & r & H & Hr). inv_bind. subst l.
      destruct a as [v|]; [|discriminate]. cbn in Hr. inv_bind.
      constructor; [eauto|]. apply IH. eauto.
    + intro H. inversion H as [|? ? (v & Hv) Hg]; subst.
      apply IH in Hg. destruct Hg as (l & r & Hl & Hr).
      exists (Some v :: l), (v ++ r). rewrite Hv, Hl. cbn. now rewrite Hr.
Qed.

Lemma has_ellipsoid_lists_items s :
  has_ellipsoid_lists s = true
  <-> (exists v, ellipsoids_item "rotations" s = Ok (Some v))
      /\ (exists v, ellipsoids_item "scales" s = Ok (Some v)).
Proof.
  unfold has_ellipsoid_lists, ellipsoids_item, dict_item.
  destruct (Spheres.ellipsoids s) as [[|kv d]|].
  - split; [discriminate|]. intros ((v & H) & _). discriminate.
  - destruct (dict_get (kv :: d) "rotations"), (dict_get (kv :: d) "scales");
      cbn; split; eauto; try discriminate;
      intros ((v & H) & (v' & H')); discriminate.
  - split; [discriminate|]. intros ((v & H) & _). discriminate.
Qed.

Lemma merge_spheres_returns g :
  (exists s, merge_spheres g = Ok s)
  <-> g <> [] /\ Forall (fun s => has_ellipsoid_lists s = true) g.
Proof.
  unfold merge_spheres. split.
  - intros (s & H). inv_bind. split; [destruct g; [discriminate|discriminate]|].
    assert (Hr : Forall (fun s => exists v, ellipsoids_item "rotations" s = Ok (Some v)) g)
      by (apply gather_returns; eauto).
    assert (Hs : Forall (fun s => exists v, ellipsoids_item "scales" s = Ok (Some v)) g)
      by (apply gather_returns; eauto).
    rewrite Forall_forall in *. intros x Hx.
    apply has_ellipsoid_lists_items. auto.
  - intros (Hne & Hall).
    assert (Hr : Forall (fun s => exists v, ellipsoids_item "rotations" s = Ok (Some v)) g).
    { eapply Forall_impl; [|exact Hall]. intros x Hx.
      now apply has_ellipsoid_lists_items in Hx. }
    assert (Hs : Forall (fun s => exists v, ellipsoids_item "scales" s = Ok (Some v)) g).
    { eapply Forall_impl; [|exact Hall]. intros x Hx.
      now apply has_ellipsoid_lists_items in Hx. }
    apply gather_returns in Hr, Hs.
    destruct Hr as (l & r & Hl & Hr), Hs as (l' & r' & Hl' & Hr').
    destruct g as [|s0 g]; [contradiction|].
    rewrite Hl. cbn [bind]. rewrite Hr. cbn [bind].
    rewrite Hl'. cbn [bind]. rewrite Hr'. cbn. eauto.
Qed.

Lemma chain_from_iterable_Ok {A : Type} (l : list (option (list A))) : forall r,
  chain_from_iterable l = Ok r ->
  exists ls, l = map Some ls /\ r = List.concat ls.
Proof.
  induction l as [|[x|] l IH]; cbn; intros r H; [| |discriminate].
  - injection H as <-. now exists [].
  - inv_bind. destruct (IH _ Ha) as (ls & -> & ->).
    exists (x :: ls). now subst r.
Qed.

(** When a group is merged, every member had both ellipsoid lists (none is
    filled in with [None]); the merged lists are the concatenations, kept
    when some rotation vector is not empty. *)
Lemma merge_spheres_ellipsoids g n :
  merge_spheres g = Ok n ->
  exists rs ss,
    mapM (ellipsoids_item "rotations") g = Ok (map Some rs)
    /\ mapM (ellipsoids_item "scales") g = Ok (map Some ss)
    /\ Spheres.ellipsoids n
       = if any (List.concat rs)
         then Some [ ("rotations", List.concat rs);
                     ("scales", List.concat ss) ]
         else None.
Proof.
  unfold merge_spheres. intro H. inv_bind. subst n.
  destruct (chain_from_iterable_Ok _ Ha0) as (rs & -> & ->).
  destruct (chain_from_iterable_Ok _ Ha2) as (ss & -> & ->).
  now exists rs, ss.
Qed.

Lemma merge_cylinders_returns g :
  (exists c, merge_cylinders g = Ok c) <-> g <> [].
Proof.
  unfold merge_cylinders. destruct g as [|c0 g]; cbn.
  - split; [intros (c & H); discriminate|contradiction].
  - split; [discriminate|eauto].
Qed.


(** *** The first loop *)

Lemma dd_append_members {A : Type} (d : list (string * list A)) key x :
  Permutation (List.concat (map snd (dd_append d key x)))
              (List.concat (map snd d) ++ [x]).
Proof.
  induction d as [|[k l] rest IH]; cbn.
  - reflexivity.
  - destruct (String.eqb k key); cbn.
    + rewrite <- !app_assoc. apply Permutation_app_head, Permutation_app_comm.
    + rewrite <- app_assoc. now apply Permutation_app_head.
Qed.

Lemma classify_members b p b' :
  classify b p = Ok b' ->
  Permutation (List.concat (map snd (spheres b')))
              (List.concat (map snd (spheres b)) ++ spheres_of [p])
  /\ Permutation (List.concat (map snd (cylinders b')))
                 (List.concat (map snd (cylinders b)) ++ cylinders_of [p])
  /\ remainder b' = remainder b ++ unmerged [p].
Proof.
  destruct p; cbn; intro H; inv_bind; subst b'; cbn;
    rewrite ?app_nil_r; auto using dd_append_members.
Qed.

Lemma foldM_classify_members xs : forall b b',
  foldM classify xs b = Ok b' ->
  Permutation (List.concat (map snd (spheres b')))
              (List.concat (map snd (spheres b)) ++ spheres_of xs)
  /\ Permutation (List.concat (map snd (cylinders b')))
                 (List.concat (map snd (cylinders b)) ++ cylinders_of xs)
  /\ remainder b' = remainder b ++ unmerged xs.
Proof.
  induction xs as [|p xs IH]; cbn [foldM]; intros b b' H.
  - injection H as <-. cbn. now rewrite !app_nil_r.
  - inv_bind. apply classify_members in Ha. apply IH in H.
    destruct Ha as (Hs & Hc & Hr), H as (Hs' & Hc' & Hr').
    change (p :: xs) with ([p] ++ xs).
    unfold spheres_of, cylinders_of, unmerged in *.
    rewrite !flat_map_app, filter_app.
    repeat split.
    + rewrite Hs', Hs. now rewrite app_assoc.
    + rewrite Hc', Hc. now rewrite app_assoc.
    + rewrite Hr', Hr. now rewrite app_assoc.
Qed.

(** *** The loops over the groups *)

Lemma merge_spheres_positions g s :
  merge_spheres g = Ok s ->
  Spheres.positions s = List.concat (map Spheres.positions g).
Proof. unfold merge_spheres. intro H; inv_bind. now subst s. Qed.

Lemma merge_cylinders_positionPairs g c :
  merge_cylinders g = Ok c ->
  Cylinders.positionPairs c = List.concat (map Cylinders.positionPairs g).
Proof. unfold merge_cylinders. intro H; inv_bind. now subst c. Qed.

(** Merging group by group gathers the data of all members, in order. *)
Lemma mapM_merge_gathers {A B C : Type} (merge : list A -> result B)
    (dataA : A -> list C) (dataB : B -> list C) :
  (forall g s, merge g = Ok s -> dataB s = List.concat (map dataA g)) ->
  forall (groups : list (string * list A)) ns,
    mapM (fun kv => merge (snd kv)) groups = Ok ns ->
    List.concat (map dataB ns)
    = List.concat (map dataA (List.concat (map snd groups))).
Proof.
  intros Hm groups.
  induction groups as [|[k g] rest IH]; cbn [mapM]; intros ns H.
  - injection H as <-. reflexivity.
  - inv_bind. subst ns. cbn. rewrite map_app, concat_app.
    rewrite (Hm _ _ Ha), (IH _ Ha0). reflexivity.
Qed.

(** *** The result *)

Lemma merge_primitives_Ok xs out :
  merge_primitives xs = Ok out ->
  exists b ns nc,
    foldM classify xs no_buckets = Ok b
    /\ mapM (fun kv => merge_spheres (snd kv)) (spheres b) = Ok ns
    /\ mapM (fun kv => merge_cylinders (snd kv)) (cylinders b) = Ok nc
    /\ out = map PSpheres ns ++ map PCylinders nc ++ unmerged xs.
Proof.
  unfold merge_primitives. intro H; inv_bind.
  exists a, a0, a1. repeat split; try assumption.
  apply foldM_classify_members in Ha. destruct Ha as (_ & _ & Hr).
  cbn in Hr. now rewrite <- Hr.
Qed.

Lemma In_spheres_of s xs : In s (spheres_of xs) <-> In (PSpheres s) xs.
Proof.
  unfold spheres_of. rewrite in_flat_map. split.
  - intros ([] & Hin & Hs); cbn in Hs; try contradiction.
    destruct Hs as [->|[]]. exact Hin.
  - intro Hin. exists (PSpheres s). split; [exact Hin|now left].
Qed.

(** X8: [merge_primitives] returns a list exactly on the inputs in which
    every Spheres has [radius], [phiStart], [phiEnd] and a non-empty
    [ellipsoids] with both lists, and every Cylinders has [radius]; on every
    other input it raises. *)
Lemma merge_primitives_returns_iff xs :
  (exists out, merge_primitives xs = Ok out) <-> forallb fully_given xs = true.
Proof.
  split.
  - intros (out & H). apply merge_primitives_Ok in H.
    destruct H as (b & ns & nc & Hb & Hns & _ & _).
    assert (Hk : forallb keys_given xs = true)
      by (apply (foldM_classify_returns xs no_buckets); eauto).
    assert (He : Forall (fun s => has_ellipsoid_lists s = true) (spheres_of xs)).
    { apply foldM_classify_members in Hb. destruct Hb as (Hs & _ & _).
      cbn in Hs. rewrite <- Hs. apply Forall_concat, Forall_map.
      assert (Hg : exists ys, mapM (fun kv => merge_spheres (snd kv)) (spheres b) = Ok ys)
        by eauto.
      apply mapM_returns in Hg. eapply Forall_impl; [|exact Hg].
      intros kv Hkv. now apply merge_spheres_returns in Hkv. }
    rewrite forallb_forall in *. rewrite Forall_forall in He.
    intros p Hp. unfold fully_given. rewrite (Hk p Hp). cbn.
    destruct p; try reflexivity. apply He. now apply In_spheres_of.
  - intro H.
    assert (Hk : forallb keys_given xs = true).
    { rewrite forallb_forall in *. intros p Hp. apply H in Hp.
      unfold fully_given in Hp. now apply andb_true_iff in Hp. }
    assert (He : Forall (fun s => has_ellipsoid_lists s = true) (spheres_of xs)).
    { rewrite Forall_forall. intros s Hs. apply In_spheres_of in Hs.
      rewrite forallb_forall in H. apply H in Hs. unfold fully_given in Hs.
      now apply andb_true_iff in Hs. }
    apply (foldM_classify_returns xs no_buckets) in Hk. destruct Hk as (b & Hb).
    destruct (foldM_classify_nonempty _ _ Hb) as (Hns & Hnc);
      try (cbn; constructor).
    destruct (foldM_classify_members _ _ Hb) as (Hs & _ & _). cbn in Hs.
    rewrite <- Hs in He. apply Forall_concat in He. rewrite Forall_map in He.
    assert (Hms : exists ns, mapM (fun kv => merge_spheres (snd kv)) (spheres b) = Ok ns).
    { apply mapM_returns. unfold nonempty_groups in Hns.
      rewrite Forall_forall in Hns, He. apply Forall_forall. intros kv Hkv.
      apply merge_spheres_returns. split; [apply Hns|apply He]; exact Hkv. }
    assert (Hmc : exists nc, mapM (fun kv => merge_cylinders (snd kv)) (cylinders b) = Ok nc).
    { apply mapM_returns. unfold nonempty_groups in Hnc.
      rewrite Forall_forall in Hnc. apply Forall_forall. intros kv Hkv.
      apply merge_cylinders_returns. apply Hnc; exact Hkv. }
    destruct Hms as (ns & Hms), Hmc as (nc & Hmc).
    unfold merge_primitives. rewrite Hb. cbn [bind]. rewrite Hms. cbn [bind].
    rewrite Hmc. cbn [bind]. eauto.
Qed.

(** *** Merging a merged list again *)

Lemma dd_append_fresh {A : Type} (d : list (string * list A)) key x :
  ~ In key (keys d) -> dd_append d key x = d ++ [(key, [x])].
Proof.
  induction d as [|[k l] rest IH]; cbn; intro Hnin; [reflexivity|].
  destruct (String.eqb k key) eqn:E.
  - apply String.eqb_eq in E. tauto.
  - rewrite IH by tauto. reflexivity.
Qed.

Lemma dd_append_known {A : Type} (d : list (string * list A)) key x :
  In key (keys d) -> keys (dd_append d key x) = keys d.
Proof.
  induction d as [|[k l] rest IH]; cbn; intro Hin; [contradiction|].
  destruct (String.eqb k key) eqn:E; cbn; [reflexivity|].
  f_equal. apply IH. destruct Hin as [->|Hin]; [|exact Hin].
  now rewrite String.eqb_refl in E.
Qed.

Lemma dd_append_keyed {A : Type} (keyf : A -> result string) d key x :
  keyed_groups keyf d -> keyf x = Ok key ->
  keyed_groups keyf (dd_append d key x).
Proof.
  intros (Hnd & Hall) Hx. split.
  - destruct (in_dec string_dec key (keys d)) as [Hin|Hnin].
    + now rewrite dd_append_known.
    + rewrite dd_append_fresh by assumption. unfold keys. rewrite map_app.
      apply (Permutation_NoDup (Permutation_cons_append _ _)).
      now constructor.
  - clear Hnd. induction Hall as [|[k l] rest Hl Hrest IH]; cbn.
    + repeat constructor. exact Hx.
    + destruct (String.eqb k key) eqn:E; constructor; auto.
      apply String.eqb_eq in E; subst k. cbn in *.
      apply Forall_app. split; [exact Hl|]. now constructor.
Qed.

Lemma foldM_classify_keyed xs : forall b b',
  foldM classify xs b = Ok b' ->
  keyed_groups spheres_key (spheres b) ->
  keyed_groups cylinders_key (cylinders b) ->
  keyed_groups spheres_key (spheres b')
  /\ keyed_groups cylinders_key (cylinders b').
Proof.
  induction xs as [|p xs IH]; cbn [foldM]; intros b b' H Hs Hc.
  - injection H as <-. now split.
  - inv_bind. apply (IH _ _ H); destruct p; cbn in Ha; inv_bind; subst a;
      cbn; auto using dd_append_keyed.
Qed.

Lemma foldM_app {A S : Type} (body : S -> A -> result S) l1 l2 : forall s,
  foldM body (l1 ++ l2) s = (s' <- foldM body l1 s ;; foldM body l2 s').
Proof.
  induction l1 as [|x l1 IH]; intro s; cbn; [reflexivity|].
  destruct (body s x); cbn; auto.
Qed.

Lemma mapM_Forall2 {A B : Type} (f : A -> result B) l : forall ys,
  mapM f l = Ok ys -> Forall2 (fun x y => f x = Ok y) l ys.
Proof.
  induction l as [|x l IH]; cbn [mapM]; intros ys H.
  - injection H as <-. constructor.
  - inv_bind. subst ys. constructor; auto.
Qed.

(** A merged Spheres has the key of its group, and either no ellipsoids or
    the two lists with a rotation that is not empty. *)
Lemma merge_spheres_key g n k :
  merge_spheres g = Ok n ->
  Forall (fun s => spheres_key s = Ok k) g ->
  spheres_key n = Ok k.
Proof.
  unfold merge_spheres. intros H Hg. inv_bind.
  destruct g as [|s0 g]; [discriminate|].
  inversion Hg as [|? ? Hs0 _]; subst. injection Ha3 as <-. exact Hs0.
Qed.

Lemma merge_cylinders_key g c k :
  merge_cylinders g = Ok c ->
  Forall (fun x => cylinders_key x = Ok k) g ->
  cylinders_key c = Ok k.
Proof.
  unfold merge_cylinders. intros H Hg.
  destruct g as [|c0 g]; [discriminate|]. cbn in H. inv_bind.
  inversion Hg as [|? ? Hc0 _]; subst. exact Hc0.
Qed.

Lemma merge_spheres_again g n :
  merge_spheres g = Ok n ->
  (Spheres.ellipsoids n <> None /\ merge_spheres [n] = Ok n)
  \/ (Spheres.ellipsoids n = None /\ merge_spheres [n] = Raise TypeError).
Proof.
  unfold merge_spheres at 1. intro H. inv_bind. subst n.
  destruct (any a0) eqn:Hany; [left|right]; (split; [cbn; congruence|]).
  - unfold merge_spheres, ellipsoids_item. cbn.
    rewrite !app_nil_r, Hany. reflexivity.
  - reflexivity.
Qed.

Lemma merge_cylinders_again (c : Cylinders.t) : merge_cylinders [c] = Ok c.
Proof.
  destruct c. unfold merge_cylinders. cbn. now rewrite app_nil_r.
Qed.

(** Classifying primitives whose keys are new and pairwise distinct opens
    one group for each, in order. *)
Lemma foldM_classify_fresh_spheres ks ns :
  Forall2 (fun k n => spheres_key n = Ok k) ks ns ->
  forall b, NoDup (keys (spheres b) ++ ks) ->
  foldM classify (map PSpheres ns) b
  = Ok (mkBuckets (spheres b ++ singletons ks ns) (cylinders b) (remainder b)).
Proof.
  induction 1 as [|k n ks ns Hk _ IH]; intros b Hnd; cbn [map foldM].
  - unfold singletons. cbn. rewrite app_nil_r. now destruct b.
  - cbn [classify]. rewrite Hk. cbn [bind].
    rewrite dd_append_fresh
      by (apply NoDup_remove_2 in Hnd; rewrite in_app_iff in Hnd; tauto).
    rewrite IH; cbn [spheres cylinders remainder].
    + unfold singletons. cbn. now rewrite <- app_assoc.
    + unfold keys in *. rewrite map_app, <- app_assoc. exact Hnd.
Qed.

Lemma foldM_classify_fresh_cylinders ks nc :
  Forall2 (fun k c => cylinders_key c = Ok k) ks nc ->
  forall b, NoDup (keys (cylinders b) ++ ks) ->
  foldM classify (map PCylinders nc) b
  = Ok (mkBuckets (spheres b) (cylinders b ++ singletons ks nc) (remainder b)).
Proof.
  induction 1 as [|k c ks nc Hk _ IH]; intros b Hnd; cbn [map foldM].
  - unfold singletons. cbn. rewrite app_nil_r. now destruct b.
  - cbn [classify]. rewrite Hk. cbn [bind].
    rewrite dd_append_fresh
      by (apply NoDup_remove_2 in Hnd; rewrite in_app_iff in Hnd; tauto).
    rewrite IH; cbn [spheres cylinders remainder].
    + unfold singletons. cbn. now rewrite <- app_assoc.
    + unfold keys in *. rewrite map_app, <- app_assoc. exact Hnd.
Qed.

Lemma foldM_classify_unmerged xs : forall b,
  foldM classify (unmerged xs) b
  = Ok (mkBuckets (spheres b) (cylinders b) (remainder b ++ unmerged xs)).
Proof.
  unfold unmerged.
  induction xs as [|p xs IH]; intro b; cbn [filter foldM].
  - rewrite app_nil_r. now destruct b.
  - destruct p; cbn [is_Spheres is_Cylinders orb negb foldM classify bind];
      rewrite IH; cbn [spheres cylinders remainder];
      now rewrite <- ?app_assoc.
Qed.

(** The keys of the groups and the merged primitives, side by side. *)
Lemma merged_keys {A : Type} (keyf : A -> result string)
    (merge : list A -> result A) (d : list (string * list A)) (ns : list A) :
  (forall g n k, merge g = Ok n -> Forall (fun x => keyf x = Ok k) g ->
                 keyf n = Ok k) ->
  Forall (fun kv => Forall (fun x => keyf x = Ok (fst kv)) (snd kv)) d ->
  mapM (fun kv => merge (snd kv)) d = Ok ns ->
  Forall2 (fun k n => keyf n = Ok k) (keys d) ns.
Proof.
  intros Hm Hd H. apply mapM_Forall2 in H.
  induction H as [|kv n d ns Hn _ IH]; cbn; [constructor|].
  inversion Hd; subst. constructor; eauto.
Qed.

Lemma mapM_singletons {A : Type} (merge : list A -> result A) ks ns :
  List.length ks = List.length ns ->
  Forall (fun n => merge [n] = Ok n) ns ->
  mapM (fun kv => merge (snd kv)) (singletons ks ns) = Ok ns.
Proof.
  unfold singletons. revert ks.
  induction ns as [|n ns IH]; intros [|k ks] Hlen Hall; try discriminate;
    [reflexivity|].
  inversion Hall as [|? ? Hn Hns]; subst. cbn [map combine mapM snd].
  rewrite Hn. cbn [bind]. rewrite IH by (auto; cbn in Hlen; congruence).
  reflexivity.
Qed.

Lemma mapM_singletons_spheres ks ns :
  List.length ks = List.length ns ->
  Forall (fun n => merge_spheres [n] = Ok n
                   \/ merge_spheres [n] = Raise TypeError) ns ->
  mapM (fun kv => merge_spheres (snd kv)) (singletons ks ns) = Ok ns
  \/ mapM (fun kv => merge_spheres (snd kv)) (singletons ks ns)
     = Raise TypeError.
Proof.
  unfold singletons. revert ks.
  induction ns as [|n ns IH]; intros [|k ks] Hlen Hall; try discriminate;
    [now left|].
  inversion Hall as [|? ? Hn Hns]; subst. cbn [map combine mapM snd].
  destruct Hn as [-> | ->]; cbn [bind]; [|now right].
  destruct (IH ks) as [-> | ->]; auto.
Qed.

Lemma mapM_merged {A B : Type} (f : A -> result B) (P : B -> Prop) l ys :
  (forall x y, f x = Ok y -> P y) -> mapM f l = Ok ys -> Forall P ys.
Proof.
  intros Hf H. apply mapM_Forall2 in H.
  induction H; constructor; eauto.
Qed.

(** What the first loop makes of a list that [merge_primitives] returned. *)
Lemma foldM_classify_merged xs out :
  merge_primitives xs = Ok out ->
  exists ks kc ns nc,
    out = map PSpheres ns ++ map PCylinders nc ++ unmerged xs
    /\ List.length ks = List.length ns /\ List.length kc = List.length nc
    /\ Forall (fun n => (Spheres.ellipsoids n <> None
                         /\ merge_spheres [n] = Ok n)
                        \/ (Spheres.ellipsoids n = None
                            /\ merge_spheres [n] = Raise TypeError)) ns
    /\ foldM classify out no_buckets
       = Ok (mkBuckets (singletons ks ns) (singletons kc nc) (unmerged xs)).
Proof.
  intro H. apply merge_primitives_Ok in H.
  destruct H as (b & ns & nc & Hb & Hns & Hnc & ->).
  destruct (foldM_classify_keyed _ _ Hb) as ((Hnds & Hks) & (Hndc & Hkc));
    try (split; constructor).
  pose proof (@merged_keys _ spheres_key merge_spheres _ _
                (@merge_spheres_key) Hks Hns) as Fs.
  pose proof (@merged_keys _ cylinders_key merge_cylinders _ _
                (@merge_cylinders_key) Hkc Hnc) as Fc.
  exists (keys (spheres b)), (keys (cylinders b)), ns, nc.
  split; [reflexivity|].
  split; [exact (Forall2_length Fs)|]. split; [exact (Forall2_length Fc)|].
  split.
  - eapply mapM_merged; [|exact Hns].
    intros kv n Hn. exact (@merge_spheres_again _ _ Hn).
  - rewrite foldM_app, (foldM_classify_fresh_spheres Fs) by exact Hnds.
    cbn [bind]. rewrite foldM_app, (foldM_classify_fresh_cylinders Fc)
      by exact Hndc.
    cbn [bind]. rewrite foldM_classify_unmerged. reflexivity.
Qed.

(** X10: merging the list that [merge_primitives] returned gives that list
    again when each of its Spheres has ellipsoids, and otherwise it gives that
    list or raises [TypeError]. *)
Lemma merge_primitives_again xs out :
  merge_primitives xs = Ok out ->
  ((forall s, In (PSpheres s) out -> Spheres.ellipsoids s <> None) ->
   merge_primitives out = Ok out)
  /\ (merge_primitives out = Ok out
      \/ merge_primitives out = Raise TypeError).
Proof.
  intro H. apply foldM_classify_merged in H.
  destruct H as (ks & kc & ns & nc & Hout & Hls & Hlc & Hagain & Hb).
  assert (Hc : mapM (fun kv => merge_cylinders (snd kv)) (singletons kc nc)
               = Ok nc).
  { apply mapM_singletons; [exact Hlc|].
    apply Forall_forall. intros c _. apply merge_cylinders_again. }
  unfold merge_primitives. rewrite Hb.
  cbn [bind spheres cylinders remainder]. split.
  - intro Hall. rewrite mapM_singletons; [|exact Hls|].
    + cbn [bind]. rewrite Hc. cbn [bind]. now rewrite Hout.
    + rewrite Forall_forall in *. intros n Hn.
      destruct (Hagain n Hn) as [(_ & Hok)|(Hnone & _)]; [exact Hok|].
      exfalso. apply (Hall n); [|exact Hnone].
      rewrite Hout. apply in_or_app. left. now apply in_map.
  - destruct (@mapM_singletons_spheres ks ns Hls) as [-> | ->].
    + eapply Forall_impl; [|exact Hagain]. intros n [(_ & Hn)|(_ & Hn)]; auto.
    + cbn [bind]. rewrite Hc. cbn [bind]. left. now rewrite Hout.
    + now right.
Qed.

Lemma spheres_of_map_PSpheres ns : spheres_of (map PSpheres ns) = ns.
Proof.
  unfold spheres_of, cylinders_of in *. induction ns; cbn; congruence.
Qed.

Lemma cylinders_of_map_PCylinders nc : cylinders_of (map PCylinders nc) = nc.
Proof.
  unfold spheres_of, cylinders_of in *. induction nc; cbn; congruence.
Qed.

Lemma spheres_of_map_PCylinders nc : spheres_of (map PCylinders nc) = [].
Proof.
  unfold spheres_of, cylinders_of in *. induction nc; cbn; congruence.
Qed.

Lemma cylinders_of_map_PSpheres ns : cylinders_of (map PSpheres ns) = [].
Proof.
  unfold spheres_of, cylinders_of in *. induction ns; cbn; congruence.
Qed.

Lemma spheres_of_unmerged xs : spheres_of (unmerged xs) = [].
Proof.
  unfold spheres_of, cylinders_of, unmerged in *.
  induction xs as [|[] xs IH]; cbn; auto.
Qed.

Lemma cylinders_of_unmerged xs : cylinders_of (unmerged xs) = [].
Proof.
  unfold spheres_of, cylinders_of, unmerged in *.
  induction xs as [|[] xs IH]; cbn; auto.
Qed.

Lemma filter_is_Cubes_unmerged xs :
  filter is_Cubes (unmerged xs) = filter is_Cubes xs.
Proof.
  unfold unmerged. induction xs as [|[] xs IH]; cbn; congruence.
Qed.

Lemma filter_is_Cubes_map_PSpheres ns : filter is_Cubes (map PSpheres ns) = [].
Proof.
  unfold spheres_of, cylinders_of in *. induction ns; cbn; congruence.
Qed.

Lemma filter_is_Cubes_map_PCylinders nc :
  filter is_Cubes (map PCylinders nc) = [].
Proof.
  unfold spheres_of, cylinders_of in *. induction nc; cbn; congruence.
Qed.

End MergerFacts.

(** ** Scenes with no contents *)

(** C1 (as the code has it): for every name, [scene_to_json] of the Scene
    with that name and the empty list of contents is the dict with the two
    keys [name] and [contents], the latter bound to the empty list: an empty
    list is not [None], so the key stays. *)
Theorem scene_to_json_empty_contents (n : string) :
  scene_to_json (IScene (mkScene n []))
  = VDict [ ("name", VStr n); ("contents", VList []) ].
Proof. apply scene_to_json_scene. Qed.

(** C1 (as stated) fails on the Scene named [s] with no contents: the keys of
    the output are not [name] alone, [contents] is there too. *)
Lemma scene_to_json_empty_contents_key :
  json_keys (scene_to_json (IScene (mkScene "s" []))) <> ["name"]
  /\ json_get (scene_to_json (IScene (mkScene "s" []))) "contents"
     = Some (VList []).
Proof. split; [discriminate|reflexivity]. Qed.

(** ** Fields bound to None *)

(** When a primitive is handed to [scene_to_json] on its own, its [None]
    fields are dropped: a Lines with every optional field unset keeps
    [positions] and [type] only. *)
Lemma scene_to_json_Lines_alone (pos : list vector) :
  scene_to_json (IPrim (PLines (Lines.mk pos None None None None None)))
  = VDict [ ("positions", vecs_val pos); ("type", VStr "lines") ].
Proof. reflexivity. Qed.

(** C3 (evaluation at the failing input): inside the contents of a Scene the
    same Lines keeps all its [None] fields, because [remove_defaults] does not
    look into lists. *)
Theorem scene_to_json_Lines_in_Scene :
  scene_to_json
    (IScene (mkScene "s"
       [IPrim (PLines (Lines.mk [[0; 0; 0]%Q] None None None None None))]))
  = VDict
      [ ("name", VStr "s");
        ("contents",
         VList
           [VDict
              [ ("positions", VList [VList [VNum 0; VNum 0; VNum 0]]);
                ("color", VNone); ("lineWidth", VNone); ("scale", VNone);
                ("dashSize", VNone); ("gapSize", VNone);
                ("type", VStr "lines") ]]) ].
Proof. reflexivity. Qed.

(** ** Fields bound to a number *)

(** C8: for every primitive, a field that holds a number [x] (the literal 0
    included) is in the serialized output with that same number, both when
    the primitive is serialized on its own and when it sits in the contents
    of a Scene. *)
Theorem number_field_is_serialized (p : Primitive) (k : string) (x : float) :
  dict_get (asdict_prim p) k = Some (VNum x) ->
  json_get (scene_to_json (IPrim p)) k = Some (VNum x)
  /\ forall n c, In (IPrim p) c ->
       exists l d,
         json_get (scene_to_json (IScene (mkScene n c))) "contents"
         = Some (VList l)
         /\ In (VDict d) l /\ dict_get d k = Some (VNum x).
Proof.
  intro Hget. split.
  - change (scene_to_json (IPrim p)) with (remove_defaults (asdict_prim p)).
    apply remove_defaults_keeps;
      [apply asdict_prim_NoDup | exact Hget | reflexivity | reflexivity].
  - intros n c Hin. rewrite scene_to_json_scene.
    exists (map (fun i => VDict (asdict_item i)) c), (asdict_prim p).
    repeat split; [|exact Hget].
    change (VDict (asdict_prim p))
      with ((fun i => VDict (asdict_item i)) (IPrim p)).
    now apply in_map.
Qed.

(** [Spheres(positions=[[0,0,0]], phiStart=0)] serializes [phiStart] as 0. *)
Lemma number_field_is_serialized_witness :
  let p := PSpheres (Spheres.mk [[0; 0; 0]%Q] None None (Some 0%Q) None None) in
  dict_get (asdict_prim p) "phiStart" = Some (VNum 0)
  /\ json_get (scene_to_json (IPrim p)) "phiStart" = Some (VNum 0).
Proof.
  intro p. split; [reflexivity|].
  exact (proj1 (number_field_is_serialized p "phiStart" (x:=0) eq_refl)).
Defined.

(** ** Hash and equality of Cylinders and Cubes *)

(** C9 (as the code has it): two Cylinders with the same color and radius,
    and two Cubes with the same color and width, have the same hash whatever
    their positional data; they are equal exactly when their positional data
    are equal too, since [__eq__] is the one the dataclass generates over all
    fields. *)
Theorem hash_ignores_positions_eq_does_not
    (hash : string -> Z) (str_float : float -> string)
    (color : option string) (size : option float) :
  (forall pp1 pp2 : list (list vector),
      Cylinders.__hash__ hash str_float (Cylinders.mk pp1 color size)
      = Cylinders.__hash__ hash str_float (Cylinders.mk pp2 color size)
      /\ Cylinders.__eq__ (Cylinders.mk pp1 color size)
                          (Cylinders.mk pp2 color size)
         = list_eqb (list_eqb vector_eqb) pp1 pp2)
  /\ (forall ps1 ps2 : list vector,
      Cubes.__hash__ hash str_float (Cubes.mk ps1 color size)
      = Cubes.__hash__ hash str_float (Cubes.mk ps2 color size)
      /\ Cubes.__eq__ (Cubes.mk ps1 color size) (Cubes.mk ps2 color size)
         = list_eqb vector_eqb ps1 ps2).
Proof.
  assert (Hc : option_eqb String.eqb color color = true).
  { destruct color; cbn; [apply String.eqb_refl|reflexivity]. }
  assert (Hs : option_eqb Qeq_bool size size = true).
  { destruct size; cbn; [apply Qeq_bool_refl|reflexivity]. }
  split; intros a b; (split; [reflexivity|]).
  - unfold Cylinders.__eq__.
    cbn [Cylinders.positionPairs Cylinders.color Cylinders.radius].
    now rewrite Hc, Hs, String.eqb_refl, !andb_true_r.
  - unfold Cubes.__eq__.
    cbn [Cubes.positions Cubes.color Cubes.width].
    now rewrite Hc, Hs, String.eqb_refl, !andb_true_r.
Qed.

(** C9 (as stated) fails: two Cylinders with the same color and radius and
    different position pairs are not equal, and likewise two Cubes with the
    same color and width and different positions. *)
Lemma same_style_not_equal :
  Cylinders.__eq__
    (Cylinders.mk [[[0; 0; 0]; [1; 1; 1]]%Q] (Some "#fff") (Some 1%Q))
    (Cylinders.mk [] (Some "#fff") (Some 1%Q)) = false
  /\ Cubes.__eq__
       (Cubes.mk [[0; 0; 0]%Q] (Some "#fff") (Some 1%Q))
       (Cubes.mk [[1; 1; 1]%Q] (Some "#fff") (Some 1%Q)) = false.
Proof. split; reflexivity. Qed.

(** ** Conservation of positions *)

(** C6: whenever [merge_primitives] returns a list, the position vectors
    gathered over the Spheres of that list are a permutation of those gathered
    over the Spheres of the input, and likewise for the position pairs of the
    Cylinders. *)
Theorem merge_conservation (xs out : list Primitive) :
  merge_primitives xs = Ok out ->
  Permutation (sphere_positions out) (sphere_positions xs)
  /\ Permutation (cylinder_positionPairs out) (cylinder_positionPairs xs).
Proof.
  intro H. apply merge_primitives_Ok in H.
  destruct H as (b & ns & nc & Hb & Hns & Hnc & ->).
  apply foldM_classify_members in Hb. destruct Hb as (Hs & Hc & _).
  cbn in Hs, Hc.
  unfold sphere_positions, cylinder_positionPairs.
  unfold spheres_of at 1, cylinders_of at 1.
  rewrite !flat_map_app.
  fold (spheres_of (map PSpheres ns)) (spheres_of (map PCylinders nc))
       (spheres_of (unmerged xs)) (cylinders_of (map PSpheres ns))
       (cylinders_of (map PCylinders nc)) (cylinders_of (unmerged xs)).
  rewrite spheres_of_map_PSpheres, spheres_of_map_PCylinders,
    spheres_of_unmerged, cylinders_of_map_PSpheres,
    cylinders_of_map_PCylinders, cylinders_of_unmerged.
  cbn [app]. rewrite !app_nil_r.
  rewrite (@mapM_merge_gathers _ _ _ merge_spheres Spheres.positions
             Spheres.positions merge_spheres_positions _ _ Hns).
  rewrite (@mapM_merge_gathers _ _ _ merge_cylinders Cylinders.positionPairs
             Cylinders.positionPairs merge_cylinders_positionPairs _ _ Hnc).
  rewrite <- !flat_map_concat_map.
  split; apply Permutation_flat_map; rewrite flat_map_concat_map; assumption.
Qed.

(** ** Cubes *)

(** C10: whenever [merge_primitives] returns a list, that list is some
    Spheres, then some Cylinders, then the primitives of the input that are
    neither, unchanged and in their order; every Cubes of the input is among
    the latter, and the Cubes of the output are those of the input. *)
Theorem Cubes_pass_through (xs out : list Primitive) :
  merge_primitives xs = Ok out ->
  (exists ns nc, out = map PSpheres ns ++ map PCylinders nc ++ unmerged xs)
  /\ (forall c, In (PCubes c) xs -> In (PCubes c) (unmerged xs))
  /\ filter is_Cubes out = filter is_Cubes xs.
Proof.
  intro H. apply merge_primitives_Ok in H.
  destruct H as (b & ns & nc & _ & _ & _ & ->).
  split; [now exists ns, nc|]. split.
  - intros c Hin. unfold unmerged. apply filter_In. now split.
  - rewrite !filter_app, filter_is_Cubes_map_PSpheres,
      filter_is_Cubes_map_PCylinders, filter_is_Cubes_unmerged.
    reflexivity.
Qed.

(** A white cube between two white spheres stays a cube of its own. *)
Lemma Cubes_pass_through_witness :
  let xs := [ PSpheres Sample.full_at_origin; PCubes Sample.white_cube;
              PSpheres Sample.full_at_ones ] in
  exists out,
    merge_primitives xs = Ok out
    /\ filter is_Cubes out = [PCubes Sample.white_cube].
Proof.
  intro xs.
  exists [ PSpheres
             (Spheres.mk [Sample.origin; Sample.ones] (Some "#fff")
                (Some 1.0%Q) (Some 0%Q) (Some 6.28%Q)
                (Some [ ("rotations", [[1; 0; 0]%Q; [1; 0; 0]%Q]);
                        ("scales", [Sample.ones; Sample.ones]) ]));
           PCubes Sample.white_cube ].
  split; [reflexivity|].
  exact (proj2 (proj2 (Cubes_pass_through xs eq_refl))).
Defined.

(** Two spheres, a cylinder and a cube: positions are conserved. *)
Lemma merge_conservation_witness :
  let xs := [ PSpheres Sample.full_at_origin; PCylinders Sample.bond;
              PCubes Sample.white_cube; PSpheres Sample.full_at_ones ] in
  exists out,
    merge_primitives xs = Ok out
    /\ Permutation (sphere_positions out) [Sample.origin; Sample.ones]
    /\ Permutation (cylinder_positionPairs out) [[Sample.origin; Sample.ones]].
Proof.
  intro xs.
  exists [ PSpheres
             (Spheres.mk [Sample.origin; Sample.ones] (Some "#fff")
                (Some 1.0%Q) (Some 0%Q) (Some 6.28%Q)
                (Some [ ("rotations", [[1; 0; 0]%Q; [1; 0; 0]%Q]);
                        ("scales", [Sample.ones; Sample.ones]) ]));
           PCylinders Sample.bond;
           PCubes Sample.white_cube ].
  split; [reflexivity|].
  exact (merge_conservation xs eq_refl).
Defined.

(** ** Unset fields *)

(** C2 (evaluation at failing inputs): [merge_primitives] raises [TypeError]
    on a single Spheres with everything unset but positions, on one where
    only [radius] is unset, on one where only [phiEnd] is unset, on one where
    only [ellipsoids] is unset, and on a Cylinders with [radius] unset. *)
Theorem merge_primitives_unset_raises :
  merge_primitives
    [PSpheres (Spheres.mk [Sample.origin] None None (Some 0%Q) None None)]
  = Raise TypeError
  /\ merge_primitives
       [PSpheres (Spheres.mk [Sample.origin] (Some "#fff") None (Some 0%Q)
                    (Some 6.28%Q) (Some Sample.one_ellipsoid))]
     = Raise TypeError
  /\ merge_primitives
       [PSpheres (Spheres.mk [Sample.origin] (Some "#fff") (Some 1.0%Q)
                    (Some 0%Q) None (Some Sample.one_ellipsoid))]
     = Raise TypeError
  /\ merge_primitives [PSpheres Sample.closed_at_origin] = Raise TypeError
  /\ merge_primitives
       [PCylinders (Cylinders.mk [[Sample.origin; Sample.ones]] None None)]
     = Raise TypeError.
Proof. repeat split. Qed.

(** C4 (evaluation at the failing input): on the two white spheres of radius
    1.0 [merge_primitives] raises [TypeError] (the unset [phiEnd] cannot be
    formatted), and with [phiEnd] given it still raises (iterating over the
    unset [ellipsoids]). *)
Theorem merge_primitives_two_white_spheres :
  merge_primitives
    [PSpheres Sample.white_at_origin; PSpheres Sample.white_at_ones]
  = Raise TypeError
  /\ merge_primitives
       [PSpheres Sample.closed_at_origin; PSpheres Sample.closed_at_ones]
     = Raise TypeError.
Proof. split; reflexivity. Qed.

(** C5 (evaluation at the failing input): a group in which one member has
    ellipsoids and the other has none is not merged, in either order:
    [merge_primitives] raises [TypeError]. *)
Theorem merge_primitives_mixed_ellipsoids :
  merge_primitives
    [PSpheres Sample.full_at_origin; PSpheres Sample.closed_at_ones]
  = Raise TypeError
  /\ merge_primitives
       [PSpheres Sample.closed_at_origin; PSpheres Sample.full_at_ones]
     = Raise TypeError.
Proof. split; reflexivity. Qed.

(** C7 (evaluation at the failing input): merging the Spheres with no
    position and empty ellipsoid lists returns one Spheres with [ellipsoids]
    unset; merging that result raises [TypeError]. *)
Theorem merge_primitives_remerge_raises :
  merge_primitives [PSpheres Sample.no_spheres]
  = Ok [PSpheres Sample.no_spheres_merged]
  /\ merge_primitives [PSpheres Sample.no_spheres_merged] = Raise TypeError.
Proof. split; reflexivity. Qed.


(** * Further properties of the serializer *)

Section PruningFacts.

Lemma trim_step_pruned t k v :
  trim_step remove_defaults_val t (k, v)
  = match pruned v with
    | VNone => t
    | v' => dict_set t k v'
    end.
Proof.
  unfold trim_step, pruned. destruct v; try reflexivity.
  now destruct (remove_defaults_val (VDict d)).
Qed.

Lemma dict_set_fresh {V : Type} (d : list (string * V)) k v :
  ~ In k (keys d) -> dict_set d k v = d ++ [(k, v)].
Proof.
  induction d as [|[k' v'] d IH]; cbn; intro Hnin; [reflexivity|].
  destruct (String.eqb k' k) eqn:E.
  - apply String.eqb_eq in E. tauto.
  - rewrite IH by tauto. reflexivity.
Qed.

Lemma keys_dict_set_known {V : Type} (d : list (string * V)) k v :
  In k (keys d) -> keys (dict_set d k v) = keys d.
Proof.
  induction d as [|[k' v'] d IH]; cbn; intro Hin; [contradiction|].
  destruct (String.eqb k' k) eqn:E; cbn.
  - reflexivity.
  - f_equal. apply IH. destruct Hin as [->|Hin]; [|exact Hin].
    now rewrite String.eqb_refl in E.
Qed.

Lemma dict_set_NoDup {V : Type} (d : list (string * V)) k v :
  NoDup (keys d) -> NoDup (keys (dict_set d k v)).
Proof.
  intro Hnd. destruct (in_dec string_dec k (keys d)) as [Hin|Hnin].
  - now rewrite keys_dict_set_known.
  - rewrite dict_set_fresh by assumption. unfold keys. rewrite map_app.
    apply (Permutation_NoDup (Permutation_cons_append _ _)).
    now constructor.
Qed.

Lemma dict_set_Forall {V : Type} (P : V -> Prop) (d : list (string * V)) k v :
  Forall (fun kv => P (snd kv)) d -> P v ->
  Forall (fun kv => P (snd kv)) (dict_set d k v).
Proof.
  intros Hd Hv. induction Hd as [|[k' v'] d Hkv Hd IH]; cbn.
  - now repeat constructor.
  - destruct (String.eqb k' k); constructor; auto.
Qed.

Lemma kept_items_keys d : incl (keys (kept_items d)) (keys d).
Proof.
  induction d as [|[k v] d IH]; cbn; [apply incl_refl|].
  unfold keys in *. rewrite map_app. apply incl_app.
  - destruct (pruned v); cbn; auto using incl_nil_l;
      intros y [<-|[]]; now left.
  - now apply incl_tl.
Qed.

(** On items whose keys are new and pairwise distinct, the loop appends the
    kept items. *)
Lemma trim_loop_fresh items : forall t,
  NoDup (keys t ++ keys items) ->
  fold_left (trim_step remove_defaults_val) items t = t ++ kept_items items.
Proof.
  induction items as [|[k v] rest IH]; intros t Hnd; cbn [fold_left].
  - cbn. now rewrite app_nil_r.
  - cbn [keys map fst] in Hnd. rewrite trim_step_pruned.
    pose proof (NoDup_remove_1 _ _ _ Hnd) as Hnd1.
    pose proof (NoDup_remove_2 _ _ _ Hnd) as Hnin.
    assert (Hfresh : ~ In k (keys t)) by (rewrite in_app_iff in Hnin; tauto).
    assert (Hnd2 : forall v', NoDup (keys (t ++ [(k, v')]) ++ keys rest)).
    { intro v'. unfold keys in *. rewrite map_app, <- app_assoc. exact Hnd. }
    cbn [kept_items flat_map fst snd].
    destruct (pruned v) eqn:Ev;
      try (rewrite dict_set_fresh by exact Hfresh; rewrite IH by apply Hnd2;
           now rewrite <- app_assoc).
    now rewrite IH.
Qed.

Lemma dict_get_app {V : Type} (d1 d2 : list (string * V)) k :
  dict_get (d1 ++ d2) k
  = match dict_get d1 k with Some v => Some v | None => dict_get d2 k end.
Proof.
  induction d1 as [|[k' v'] d1 IH]; cbn; [reflexivity|].
  now destruct (String.eqb k' k).
Qed.

Lemma dict_get_not_In {V : Type} (d : list (string * V)) k :
  ~ In k (keys d) -> dict_get d k = None.
Proof.
  induction d as [|[k' v'] d IH]; cbn; intro Hnin; [reflexivity|].
  destruct (String.eqb k' k) eqn:E.
  - apply String.eqb_eq in E. tauto.
  - apply IH. tauto.
Qed.

Lemma dict_get_kept_items d k :
  NoDup (keys d) ->
  dict_get (kept_items d) k
  = match dict_get d k with
    | Some v => match pruned v with VNone => None | v' => Some v' end
    | None => None
    end.
Proof.
  induction d as [|[k0 v0] d IH]; intro Hnd; [reflexivity|].
  cbn [keys map fst] in Hnd. inversion Hnd as [|? ? Hnin Hnd']; subst.
  cbn [kept_items flat_map fst snd dict_get]. rewrite dict_get_app.
  fold (kept_items d).
  destruct (String.eqb k0 k) eqn:E.
  - apply String.eqb_eq in E; subst k0.
    assert (Hk : dict_get (kept_items d) k = None).
    { apply dict_get_not_In. intro Hin. apply Hnin.
      now apply kept_items_keys. }
    destruct (pruned v0); cbn; rewrite ?String.eqb_refl; auto.
  - rewrite <- IH by assumption.
    destruct (pruned v0); cbn; rewrite ?E; reflexivity.
Qed.

Lemma json_get_or_None t k : json_get (or_None t) k = dict_get t k.
Proof. now destruct t. Qed.

(** An induction principle for values that gives the hypothesis on the
    values of a dict. *)
Lemma pyval_dict_ind (P : pyval -> Prop) :
  P VNone -> (forall s, P (VStr s)) -> (forall x, P (VNum x)) ->
  (forall l, P (VList l)) ->
  (forall d, Forall (fun kv => P (snd kv)) d -> P (VDict d)) ->
  forall v, P v.
Proof.
  intros HN HS HX HL HD.
  fix IH 1.
  intros [| s | x | l | d]; [exact HN | apply HS | apply HX | apply HL |].
  apply HD. induction d as [|[k v] d IHd]; constructor; [apply IH|exact IHd].
Qed.

Lemma pruned_eq v : pruned v = remove_defaults_val v.
Proof. now destruct v. Qed.

Lemma remove_defaults_NoDup d :
  NoDup (keys d) -> remove_defaults d = or_None (kept_items d).
Proof.
  intro Hnd. rewrite remove_defaults_unfold, trim_loop_fresh; auto.
Qed.

Lemma dict_set_not_nil {V : Type} (d : list (string * V)) k v :
  dict_set d k v <> [].
Proof. destruct d as [|[k' v'] d]; cbn; [|destruct (String.eqb k' k)]; discriminate. Qed.

(** The loop ends with nothing exactly when it starts with nothing and every
    value prunes to [None]. *)
Lemma trim_loop_nil items : forall t,
  fold_left (trim_step remove_defaults_val) items t = []
  <-> t = [] /\ Forall (fun kv => pruned (snd kv) = VNone) items.
Proof.
  induction items as [|[k v] rest IH]; intro t; cbn [fold_left].
  - split; [now split|tauto].
  - rewrite IH, trim_step_pruned. split.
    + intros (Ht & Hrest). destruct (pruned v) eqn:Ev;
        try (now apply dict_set_not_nil in Ht).
      split; [exact Ht|]. now constructor.
    + intros (-> & Hall). inversion Hall as [|? ? Hv Hrest]; subst.
      cbn in Hv. rewrite Hv. now split.
Qed.

(** What the loop has stored is never [None] and is clean, when pruning each
    value of the items gives something clean. *)
Lemma trim_loop_clean items :
  Forall (fun kv => clean (remove_defaults_val (snd kv)) = true) items ->
  forall t,
    Forall (fun kv => is_None (snd kv) = false /\ clean (snd kv) = true) t ->
    Forall (fun kv => is_None (snd kv) = false /\ clean (snd kv) = true)
      (fold_left (trim_step remove_defaults_val) items t).
Proof.
  induction 1 as [|[k v] rest Hv _ IH]; intros t Ht; cbn [fold_left];
    [exact Ht|].
  apply IH. rewrite trim_step_pruned. cbn [snd] in Hv.
  rewrite <- pruned_eq in Hv.
  destruct (pruned v) eqn:Ev; try exact Ht;
    apply (dict_set_Forall
             (fun v => is_None v = false /\ clean v = true)); auto.
Qed.

Lemma clean_VDict t :
  t <> [] ->
  Forall (fun kv => is_None (snd kv) = false /\ clean (snd kv) = true) t ->
  clean (VDict t) = true.
Proof.
  intros Hne Hall. cbn [clean]. apply andb_true_iff. split.
  - now destruct t.
  - apply forallb_forall. rewrite Forall_forall in Hall.
    intros kv Hkv. destruct (Hall kv Hkv) as (HN & HC). now rewrite HN, HC.
Qed.

Lemma remove_defaults_val_clean v : clean (remove_defaults_val v) = true.
Proof.
  induction v as [| | | |d IH] using pyval_dict_ind; try reflexivity.
  change (remove_defaults_val (VDict d)) with (remove_defaults d).
  rewrite remove_defaults_unfold.
  pose proof (trim_loop_clean IH (t:=[]) (Forall_nil _)) as H.
  destruct (fold_left (trim_step remove_defaults_val) d []) eqn:E;
    [reflexivity|].
  apply clean_VDict; [discriminate|exact H].
Qed.

(** What the loop has stored sits under distinct keys and is left alone by a
    second pruning, when pruning each value of the items a second time changes
    nothing. *)
Lemma trim_loop_settled items :
  Forall (fun kv => remove_defaults_val (remove_defaults_val (snd kv))
                    = remove_defaults_val (snd kv)) items ->
  forall t,
    NoDup (keys t) ->
    Forall (fun kv => snd kv <> VNone /\ pruned (snd kv) = snd kv) t ->
    NoDup (keys (fold_left (trim_step remove_defaults_val) items t))
    /\ Forall (fun kv => snd kv <> VNone /\ pruned (snd kv) = snd kv)
         (fold_left (trim_step remove_defaults_val) items t).
Proof.
  induction 1 as [|[k v] rest Hv _ IH]; intros t Hnd Ht; cbn [fold_left];
    [now split|].
  cbn [snd] in Hv. rewrite <- !pruned_eq in Hv. rewrite trim_step_pruned.
  destruct (pruned v) eqn:Ev; try (now apply IH);
    (apply IH; [now apply dict_set_NoDup|]);
    apply (dict_set_Forall (fun v => v <> VNone /\ pruned v = v));
    auto; split; (discriminate || exact Hv).
Qed.

Lemma kept_items_settled t :
  Forall (fun kv => snd kv <> VNone /\ pruned (snd kv) = snd kv) t ->
  kept_items t = t.
Proof.
  induction 1 as [|[k v] t (Hne & Hp) _ IH]; [reflexivity|].
  cbn [kept_items flat_map fst snd] in *. fold (kept_items t).
  rewrite IH, Hp. now destruct v.
Qed.

Lemma remove_defaults_val_twice v :
  remove_defaults_val (remove_defaults_val v) = remove_defaults_val v.
Proof.
  induction v as [| | | |d IH] using pyval_dict_ind; try reflexivity.
  change (remove_defaults_val (VDict d)) with (remove_defaults d).
  rewrite remove_defaults_unfold.
  destruct (trim_loop_settled IH (t:=[])) as (Hnd & Hall);
    [constructor|constructor|].
  destruct (fold_left (trim_step remove_defaults_val) d []) as [|kv t] eqn:E;
    [reflexivity|].
  cbn [or_None].
  change (remove_defaults_val (VDict (kv :: t)))
    with (remove_defaults (kv :: t)).
  rewrite remove_defaults_NoDup by exact Hnd.
  now rewrite kept_items_settled.
Qed.

End PruningFacts.

(** ** Scenes *)

(** X1: serializing a Scene prunes nothing: the result is the dict that
    [asdict] builds, with [name] and with [contents] as the list of the
    unpruned dicts of all items, nested Scenes included. *)
Theorem scene_to_json_Scene_is_asdict (s : Scene) :
  scene_to_json (IScene s) = VDict (asdict_scene s).
Proof. destruct s as [n c]. apply scene_to_json_scene. Qed.

(** ** The pruning loop *)

(** X2: on a dict (keys pairwise distinct, as in every Python dict),
    [remove_defaults] returns the items whose pruned value is not [None], in
    their order, and [None] when no item is left. *)
Theorem remove_defaults_is_kept_items (d : pydict) :
  NoDup (keys d) -> remove_defaults d = or_None (kept_items d).
Proof. apply remove_defaults_NoDup. Qed.

(** [{'a': None, 'b': 1, 'c': {'x': None}, 'd': {'y': 'z'}}] becomes
    [{'b': 1, 'd': {'y': 'z'}}]. *)
Lemma remove_defaults_is_kept_items_witness :
  let d := [ ("a", VNone); ("b", VNum 1); ("c", VDict [("x", VNone)]);
             ("d", VDict [("y", VStr "z")]) ] in
  remove_defaults d
  = VDict [ ("b", VNum 1); ("d", VDict [("y", VStr "z")]) ].
Proof.
  intro d. rewrite (@remove_defaults_is_kept_items d).
  - reflexivity.
  - repeat (constructor; [cbn; intuition discriminate|]); constructor.
Defined.

(** X3: when a primitive is serialized on its own, a field is in the output
    exactly when its pruned value is not [None], and then it is bound to that
    pruned value; no other key appears. *)
Theorem scene_to_json_primitive_field (p : Primitive) (k : string) :
  json_get (scene_to_json (IPrim p)) k
  = match dict_get (asdict_prim p) k with
    | Some v => match pruned v with VNone => None | v' => Some v' end
    | None => None
    end.
Proof.
  change (scene_to_json (IPrim p)) with (remove_defaults (asdict_prim p)).
  rewrite remove_defaults_NoDup by apply asdict_prim_NoDup.
  rewrite json_get_or_None.
  apply dict_get_kept_items, asdict_prim_NoDup.
Qed.

(** X4: a primitive serialized on its own always yields a dict that holds
    its [type] field, the fixed tag of its class. *)
Theorem scene_to_json_primitive_type (p : Primitive) :
  json_get (scene_to_json (IPrim p)) "type" = Some (VStr (type_of p)).
Proof.
  change (scene_to_json (IPrim p)) with (remove_defaults (asdict_prim p)).
  apply remove_defaults_keeps;
    [apply asdict_prim_NoDup | now destruct p | reflexivity | reflexivity].
Qed.

(** X5: in what [remove_defaults] returns, no dict reached through dict
    values is empty or binds a key to [None]. *)
Theorem remove_defaults_clean (d : pydict) :
  clean (remove_defaults d) = true.
Proof. apply remove_defaults_val_clean. Qed.

(** X6: a dict returned by [remove_defaults] is returned unchanged when
    [remove_defaults] is applied to it. *)
Theorem remove_defaults_idempotent (d t : pydict) :
  remove_defaults d = VDict t -> remove_defaults t = VDict t.
Proof.
  intro H. unfold remove_defaults in *.
  rewrite <- H at 2. rewrite <- H. apply remove_defaults_val_twice.
Qed.

Lemma remove_defaults_idempotent_witness :
  remove_defaults [ ("b", VNum 1); ("d", VDict [("y", VStr "z")]) ]
  = VDict [ ("b", VNum 1); ("d", VDict [("y", VStr "z")]) ].
Proof.
  apply (@remove_defaults_idempotent
           [ ("a", VNone); ("b", VNum 1); ("c", VDict [("x", VNone)]);
             ("d", VDict [("y", VStr "z")]) ]).
  reflexivity.
Defined.

(** X7: [remove_defaults] returns [None] (not an empty dict) exactly when
    every value of the dict prunes to [None]; the empty dict is such a
    dict. *)
Theorem remove_defaults_None_iff (d : pydict) :
  remove_defaults d = VNone
  <-> Forall (fun kv => pruned (snd kv) = VNone) d.
Proof.
  rewrite remove_defaults_unfold.
  pose proof (trim_loop_nil d []) as H.
  destruct (fold_left (trim_step remove_defaults_val) d []) as [|kv t] eqn:E;
    cbn.
  - split; [intros _; now apply H|reflexivity].
  - split; [discriminate|]. intro Hall.
    assert (Hnil : kv :: t = []) by (apply H; now split). discriminate.
Qed.

(** * Further properties of the merger *)

Section MergerOutcomes.

Lemma bind_Raise {A B : Type} (m : result A) (k : A -> result B) e :
  bind m k = Raise e ->
  m = Raise e \/ exists a, m = Ok a /\ k a = Raise e.
Proof. destruct m as [a|e']; cbn; intro H; [eauto|left; congruence]. Qed.

Lemma mapM_Raise {A B : Type} (f : A -> result B) l e :
  mapM f l = Raise e -> exists x, In x l /\ f x = Raise e.
Proof.
  induction l as [|x l IH]; cbn [mapM]; intro H; [discriminate|].
  apply bind_Raise in H. destruct H as [H|(y & Hy & H)].
  - exists x. split; [now left|exact H].
  - apply bind_Raise in H. destruct H as [H|(ys & _ & H)]; [|discriminate].
    destruct (IH H) as (x' & Hin & Hx'). exists x'. split; [now right|exact Hx'].
Qed.

Lemma mapM_In {A B : Type} (f : A -> result B) l : forall ys y,
  mapM f l = Ok ys -> In y ys -> exists x, In x l /\ f x = Ok y.
Proof.
  induction l as [|x l IH]; cbn [mapM]; intros ys y H Hin.
  - injection H as <-. contradiction.
  - inv_bind. subst ys. destruct Hin as [<-|Hin].
    + exists x. split; [now left|assumption].
    + destruct (IH _ _ Ha0 Hin) as (x' & Hx' & Hf). exists x'.
      split; [now right|exact Hf].
Qed.

Lemma mapM_length {A B : Type} (f : A -> result B) l ys :
  mapM f l = Ok ys -> List.length ys = List.length l.
Proof. intro H. apply mapM_Forall2 in H. symmetry. exact (Forall2_length H). Qed.

Lemma Forall2_mapM {A B : Type} (f : A -> result B) ys l :
  Forall2 (fun y x => f x = Ok y) ys l -> mapM f l = Ok ys.
Proof.
  induction 1 as [|y x ys l Hx _ IH]; cbn [mapM]; [reflexivity|].
  now rewrite Hx, IH.
Qed.

(** The first loop raises nothing but [TypeError]. *)
Lemma classify_Raise b p e : classify b p = Raise e -> e = TypeError.
Proof.
  destruct p as [s|c| | | | | |]; cbn; try discriminate.
  - unfold spheres_key, format_2f.
    destruct (Spheres.radius s), (Spheres.phiStart s), (Spheres.phiEnd s);
      cbn; congruence.
  - unfold cylinders_key, format_2f. destruct (Cylinders.radius c);
      cbn; congruence.
Qed.

Lemma foldM_classify_Raise xs : forall b e,
  foldM classify xs b = Raise e -> e = TypeError.
Proof.
  induction xs as [|p xs IH]; cbn [foldM]; intros b e H; [discriminate|].
  apply bind_Raise in H. destruct H as [H|(b' & _ & H)]; eauto using classify_Raise.
Qed.

Lemma chain_from_iterable_Raise {A : Type} (l : list (option (list A))) e :
  chain_from_iterable l = Raise e -> e = TypeError.
Proof.
  induction l as [|[x|] l IH]; cbn; intro H; [discriminate| |congruence].
  apply bind_Raise in H. destruct H as [H|(r & _ & H)]; [auto|discriminate].
Qed.

Lemma ellipsoids_item_Raise k s e :
  ellipsoids_item k s = Raise e ->
  e = KeyError
  /\ exists d, Spheres.ellipsoids s = Some d /\ d <> [] /\ dict_get d k = None.
Proof.
  unfold ellipsoids_item, dict_item.
  destruct (Spheres.ellipsoids s) as [[|kv d]|]; try discriminate.
  destruct (dict_get (kv :: d) k) eqn:E; cbn; [discriminate|].
  intro H. split; [congruence|].
  exists (kv :: d). repeat split; [discriminate|exact E].
Qed.

Lemma merge_spheres_Raise g e :
  g <> [] -> merge_spheres g = Raise e ->
  e = TypeError
  \/ (e = KeyError
      /\ exists s d, In s g /\ Spheres.ellipsoids s = Some d /\ d <> []
                     /\ (dict_get d "rotations" = None
                         \/ dict_get d "scales" = None)).
Proof.
  intros Hne H. unfold merge_spheres in H.
  apply bind_Raise in H. destruct H as [H|(l & _ & H)].
  { apply mapM_Raise in H. destruct H as (s & Hin & H).
    apply ellipsoids_item_Raise in H. destruct H as (-> & d & Hd & Hd' & Hk).
    right. split; [reflexivity|]. exists s, d. auto. }
  apply bind_Raise in H. destruct H as [H|(r & _ & H)].
  { left. exact (chain_from_iterable_Raise _ H). }
  apply bind_Raise in H. destruct H as [H|(l' & _ & H)].
  { apply mapM_Raise in H. destruct H as (s & Hin & H).
    apply ellipsoids_item_Raise in H. destruct H as (-> & d & Hd & Hd' & Hk).
    right. split; [reflexivity|]. exists s, d. auto. }
  apply bind_Raise in H. destruct H as [H|(r' & _ & H)].
  { left. exact (chain_from_iterable_Raise _ H). }
  apply bind_Raise in H. destruct H as [H|(s0 & _ & H)]; [|discriminate].
  destruct g; [contradiction|discriminate].
Qed.

Lemma merge_cylinders_Raise g e : g <> [] -> merge_cylinders g <> Raise e.
Proof. destruct g; [contradiction|discriminate]. Qed.

(** Every member of a group is a Spheres of the input. *)
Lemma group_member_In xs b kv s :
  foldM classify xs no_buckets = Ok b ->
  In kv (spheres b) -> In s (snd kv) -> In (PSpheres s) xs.
Proof.
  intros Hb Hkv Hs. apply foldM_classify_members in Hb.
  destruct Hb as (Hp & _ & _). cbn in Hp.
  apply In_spheres_of. apply (Permutation_in _ Hp).
  apply in_concat. exists (snd kv). split; [now apply in_map|exact Hs].
Qed.

Lemma group_cylinder_In xs b kv c :
  foldM classify xs no_buckets = Ok b ->
  In kv (cylinders b) -> In c (snd kv) -> In (PCylinders c) xs.
Proof.
  intros Hb Hkv Hc. apply foldM_classify_members in Hb.
  destruct Hb as (_ & Hp & _). cbn in Hp.
  assert (Hin : In c (cylinders_of xs)).
  { apply (Permutation_in _ Hp).
    apply in_concat. exists (snd kv). split; [now apply in_map|exact Hc]. }
  unfold cylinders_of in Hin. apply in_flat_map in Hin.
  destruct Hin as ([] & Hx & Hin); cbn in Hin; try contradiction.
  destruct Hin as [->|[]]. exact Hx.
Qed.

Lemma spheres_of_out ns nc xs :
  spheres_of (map PSpheres ns ++ map PCylinders nc ++ unmerged xs) = ns.
Proof.
  unfold spheres_of. rewrite !flat_map_app.
  fold (spheres_of (map PSpheres ns)) (spheres_of (map PCylinders nc))
       (spheres_of (unmerged xs)).
  rewrite spheres_of_map_PSpheres, spheres_of_map_PCylinders,
    spheres_of_unmerged. now rewrite !app_nil_r.
Qed.

Lemma cylinders_of_out ns nc xs :
  cylinders_of (map PSpheres ns ++ map PCylinders nc ++ unmerged xs) = nc.
Proof.
  unfold cylinders_of. rewrite !flat_map_app.
  fold (cylinders_of (map PSpheres ns)) (cylinders_of (map PCylinders nc))
       (cylinders_of (unmerged xs)).
  rewrite cylinders_of_map_PSpheres, cylinders_of_map_PCylinders,
    cylinders_of_unmerged. now rewrite app_nil_r.
Qed.

Lemma groups_length {A : Type} (d : list (string * list A)) :
  nonempty_groups d ->
  (List.length d <= List.length (List.concat (map snd d)))%nat.
Proof.
  induction 1 as [|[k g] d Hg _ IH]; cbn; [lia|].
  rewrite length_app. destruct g; [contradiction|cbn; lia].
Qed.

Lemma classes_length xs :
  (List.length (spheres_of xs) + List.length (cylinders_of xs)
   + List.length (unmerged xs) = List.length xs)%nat.
Proof.
  unfold spheres_of, cylinders_of, unmerged.
  induction xs as [|[] xs IH]; cbn; lia.
Qed.

End MergerOutcomes.

(** ** Exceptions *)

(** X9: the only exceptions of [merge_primitives] are [TypeError] and
    [KeyError] (the index [0] of a group is always there), and [KeyError]
    is raised only when some Spheres of the input has a non-empty
    [ellipsoids] dict that lacks [rotations] or [scales]. *)
Theorem merge_primitives_raises (xs : list Primitive) (e : exn) :
  merge_primitives xs = Raise e ->
  e = TypeError
  \/ (e = KeyError
      /\ exists s d, In (PSpheres s) xs /\ Spheres.ellipsoids s = Some d
                     /\ d <> []
                     /\ (dict_get d "rotations" = None
                         \/ dict_get d "scales" = None)).
Proof.
  unfold merge_primitives. intro H.
  apply bind_Raise in H. destruct H as [H|(b & Hb & H)].
  { left. exact (foldM_classify_Raise _ _ H). }
  destruct (foldM_classify_nonempty _ _ Hb (Forall_nil _) (Forall_nil _))
    as (Hns & Hnc).
  unfold nonempty_groups in Hns, Hnc. rewrite Forall_forall in Hns, Hnc.
  apply bind_Raise in H. destruct H as [H|(ns & _ & H)].
  { apply mapM_Raise in H. destruct H as (kv & Hkv & H).
    apply merge_spheres_Raise in H; [|now apply Hns].
    destruct H as [H|(-> & s & d & Hs & Hd)]; [now left|right].
    split; [reflexivity|]. exists s, d.
    split; [exact (@group_member_In _ _ _ _ Hb Hkv Hs)|exact Hd]. }
  apply bind_Raise in H. destruct H as [H|(nc & _ & H)]; [|discriminate].
  apply mapM_Raise in H. destruct H as (kv & Hkv & H).
  exfalso. exact (@merge_cylinders_Raise _ _ (Hnc kv Hkv) H).
Qed.

(** A Spheres whose ellipsoids have rotations but no scales. *)
Lemma merge_primitives_raises_witness :
  let s := Spheres.mk [Sample.origin] (Some "#fff") (Some 1.0%Q) (Some 0%Q)
             (Some 6.28%Q) (Some [ ("rotations", [[1; 0; 0]%Q]) ]) in
  merge_primitives [PSpheres s] = Raise KeyError
  /\ (KeyError = TypeError
      \/ (KeyError = KeyError
          /\ exists s d, In (PSpheres s) [PSpheres s]
                         /\ Spheres.ellipsoids s = Some d /\ d <> []
                         /\ (dict_get d "rotations" = None
                             \/ dict_get d "scales" = None))).
Proof.
  intro s. split; [reflexivity|].
  destruct (@merge_primitives_raises [PSpheres s] KeyError eq_refl)
    as [H|(_ & s' & d & Hin & Hd)].
  - now left.
  - right. split; [reflexivity|]. exists s', d. split; [|exact Hd].
    destruct Hin as [Hin|[]]. injection Hin as <-. now left.
Defined.

(** ** Size and shape of the result *)

(** X11: [merge_primitives] never returns more primitives than it was
    given. *)
Theorem merge_primitives_length (xs out : list Primitive) :
  merge_primitives xs = Ok out ->
  (List.length out <= List.length xs)%nat.
Proof.
  intro H. apply merge_primitives_Ok in H.
  destruct H as (b & ns & nc & Hb & Hns & Hnc & ->).
  destruct (foldM_classify_nonempty _ _ Hb (Forall_nil _) (Forall_nil _))
    as (Hgs & Hgc).
  destruct (foldM_classify_members _ _ Hb) as (Hs & Hc & _). cbn in Hs, Hc.
  apply groups_length in Hgs, Hgc.
  rewrite (Permutation_length Hs) in Hgs.
  rewrite (Permutation_length Hc) in Hgc.
  apply mapM_length in Hns, Hnc.
  rewrite !length_app, !length_map, Hns, Hnc.
  pose proof (classes_length xs). lia.
Qed.

Lemma merge_primitives_length_witness :
  let xs := [ PSpheres Sample.full_at_origin; PCubes Sample.white_cube;
              PSpheres Sample.full_at_ones ] in
  exists out,
    merge_primitives xs = Ok out
    /\ (List.length out <= List.length xs)%nat.
Proof.
  intro xs.
  exists [ PSpheres
             (Spheres.mk [Sample.origin; Sample.ones] (Some "#fff")
                (Some 1.0%Q) (Some 0%Q) (Some 6.28%Q)
                (Some [ ("rotations", [[1; 0; 0]%Q; [1; 0; 0]%Q]);
                        ("scales", [Sample.ones; Sample.ones]) ]));
           PCubes Sample.white_cube ].
  split; [reflexivity|].
  exact (@merge_primitives_length xs _ eq_refl).
Defined.

(** X12: a list with no Spheres and no Cylinders, the empty list included,
    is returned as it is. *)
Theorem merge_primitives_nothing_to_merge (xs : list Primitive) :
  forallb (fun p => negb (is_Spheres p || is_Cylinders p)) xs = true ->
  merge_primitives xs = Ok xs.
Proof.
  intro H. apply forallb_filter_id in H. fold (unmerged xs) in H.
  rewrite <- H at 1. unfold merge_primitives.
  rewrite foldM_classify_unmerged. cbn. now rewrite H.
Qed.

Lemma merge_primitives_nothing_to_merge_witness :
  merge_primitives [] = Ok []
  /\ merge_primitives [PCubes Sample.white_cube; PArrows; PLabels]
     = Ok [PCubes Sample.white_cube; PArrows; PLabels].
Proof.
  split; apply merge_primitives_nothing_to_merge; reflexivity.
Defined.

(** X13: in the list that [merge_primitives] returns, the keys of the Spheres
    are pairwise distinct, and so are the keys of the Cylinders: nothing is
    left to merge. *)
Theorem merged_keys_distinct (xs out : list Primitive) :
  merge_primitives xs = Ok out ->
  (exists ks, mapM spheres_key (spheres_of out) = Ok ks /\ NoDup ks)
  /\ (exists kc, mapM cylinders_key (cylinders_of out) = Ok kc /\ NoDup kc).
Proof.
  intro H. apply merge_primitives_Ok in H.
  destruct H as (b & ns & nc & Hb & Hns & Hnc & ->).
  destruct (foldM_classify_keyed _ _ Hb
              (conj (NoDup_nil _) (Forall_nil _))
              (conj (NoDup_nil _) (Forall_nil _)))
    as ((Hnds & Hks) & (Hndc & Hkc)).
  pose proof (@merged_keys _ spheres_key merge_spheres _ _
                (@merge_spheres_key) Hks Hns) as Fs.
  pose proof (@merged_keys _ cylinders_key merge_cylinders _ _
                (@merge_cylinders_key) Hkc Hnc) as Fc.
  rewrite spheres_of_out, cylinders_of_out. split.
  - exists (keys (spheres b)). split; [now apply Forall2_mapM|exact Hnds].
  - exists (keys (cylinders b)). split; [now apply Forall2_mapM|exact Hndc].
Qed.

Lemma merged_keys_distinct_witness :
  exists ks,
    mapM spheres_key
      [ Spheres.mk [Sample.origin; Sample.ones] (Some "#fff") (Some 1.0%Q)
          (Some 0%Q) (Some 6.28%Q)
          (Some [ ("rotations", [[1; 0; 0]%Q; [1; 0; 0]%Q]);
                  ("scales", [Sample.ones; Sample.ones]) ]) ] = Ok ks
    /\ NoDup ks.
Proof.
  exact (proj1 (@merged_keys_distinct
           [ PSpheres Sample.full_at_origin; PCubes Sample.white_cube;
             PSpheres Sample.full_at_ones ]
           [ PSpheres
               (Spheres.mk [Sample.origin; Sample.ones] (Some "#fff")
                  (Some 1.0%Q) (Some 0%Q) (Some 6.28%Q)
                  (Some [ ("rotations", [[1; 0; 0]%Q; [1; 0; 0]%Q]);
                          ("scales", [Sample.ones; Sample.ones]) ]));
             PCubes Sample.white_cube ]
           eq_refl)).
Defined.

(** ** One group *)

Section OneGroup.

Lemma foldM_classify_same_key k ss :
  Forall (fun s => spheres_key s = Ok k) ss ->
  forall g c r,
    foldM classify (map PSpheres ss) (mkBuckets [(k, g)] c r)
    = Ok (mkBuckets [(k, g ++ ss)] c r).
Proof.
  induction 1 as [|s ss Hs _ IH]; intros g c r; cbn [map foldM].
  - now rewrite app_nil_r.
  - cbn [classify]. rewrite Hs. cbn [bind spheres cylinders remainder dd_append].
    rewrite String.eqb_refl, IH, <- app_assoc. reflexivity.
Qed.

Lemma foldM_classify_same_key_cylinders k cs :
  Forall (fun c => cylinders_key c = Ok k) cs ->
  forall g d r,
    foldM classify (map PCylinders cs) (mkBuckets d [(k, g)] r)
    = Ok (mkBuckets d [(k, g ++ cs)] r).
Proof.
  induction 1 as [|c cs Hc _ IH]; intros g d r; cbn [map foldM].
  - now rewrite app_nil_r.
  - cbn [classify]. rewrite Hc. cbn [bind spheres cylinders remainder dd_append].
    rewrite String.eqb_refl, IH, <- app_assoc. reflexivity.
Qed.

Lemma ellipsoids_item_list k s :
  has_ellipsoid_lists s = true -> k = "rotations" \/ k = "scales" ->
  ellipsoids_item k s = Ok (Some (ellipsoid_list k s)).
Proof.
  unfold has_ellipsoid_lists, ellipsoids_item, ellipsoid_list, dict_item.
  destruct (Spheres.ellipsoids s) as [[|kv d]|]; try discriminate.
  intros H [-> | ->];
    destruct (dict_get (kv :: d) "rotations"), (dict_get (kv :: d) "scales");
    try discriminate; reflexivity.
Qed.

Lemma mapM_ellipsoids_item k g :
  Forall (fun s => has_ellipsoid_lists s = true) g ->
  k = "rotations" \/ k = "scales" ->
  mapM (ellipsoids_item k) g = Ok (map (fun s => Some (ellipsoid_list k s)) g).
Proof.
  intros Hg Hk. induction Hg as [|s g Hs _ IH]; cbn [mapM map]; [reflexivity|].
  now rewrite (ellipsoids_item_list _ Hs Hk), IH.
Qed.

Lemma chain_from_iterable_Some {A B : Type} (f : A -> list B) l :
  chain_from_iterable (map (fun x => Some (f x)) l)
  = Ok (List.concat (map f l)).
Proof. induction l as [|x l IH]; cbn; [reflexivity|]. now rewrite IH. Qed.

Lemma merge_spheres_given s0 g :
  Forall (fun s => has_ellipsoid_lists s = true) (s0 :: g) ->
  merge_spheres (s0 :: g)
  = Ok (Spheres.mk
          (List.concat (map Spheres.positions (s0 :: g)))
          (Spheres.color s0) (Spheres.radius s0)
          (Spheres.phiStart s0) (Spheres.phiEnd s0)
          (if any (List.concat (map (ellipsoid_list "rotations") (s0 :: g)))
           then Some
                  [ ("rotations",
                     List.concat (map (ellipsoid_list "rotations") (s0 :: g)));
                    ("scales",
                     List.concat (map (ellipsoid_list "scales") (s0 :: g))) ]
           else None)).
Proof.
  intro H. unfold merge_spheres.
  rewrite (mapM_ellipsoids_item H (or_introl eq_refl)). cbn [bind].
  rewrite chain_from_iterable_Some. cbn [bind].
  rewrite (mapM_ellipsoids_item H (or_intror eq_refl)). cbn [bind].
  rewrite chain_from_iterable_Some. reflexivity.
Qed.

End OneGroup.

(** X14: Spheres that all have the same key and all have both ellipsoid
    lists are merged into one Spheres: positions, rotations and scales are
    concatenated in the order of the input, color, radius, phiStart and phiEnd
    are those of the first, and the ellipsoids are dropped when no rotation
    vector has an entry. *)
Theorem merge_primitives_one_group (k : string) (s0 : Spheres.t)
    (ss : list Spheres.t) :
  Forall (fun s => spheres_key s = Ok k) (s0 :: ss) ->
  Forall (fun s => has_ellipsoid_lists s = true) (s0 :: ss) ->
  merge_primitives (map PSpheres (s0 :: ss))
  = Ok [ PSpheres
           (Spheres.mk
              (List.concat (map Spheres.positions (s0 :: ss)))
              (Spheres.color s0) (Spheres.radius s0)
              (Spheres.phiStart s0) (Spheres.phiEnd s0)
              (if any (List.concat
                         (map (ellipsoid_list "rotations") (s0 :: ss)))
               then Some
                      [ ("rotations",
                         List.concat
                           (map (ellipsoid_list "rotations") (s0 :: ss)));
                        ("scales",
                         List.concat
                           (map (ellipsoid_list "scales") (s0 :: ss))) ]
               else None)) ].
Proof.
  intros Hk He. inversion Hk as [|? ? Hk0 Hks]; subst.
  unfold merge_primitives. cbn [map foldM classify]. rewrite Hk0.
  cbn [bind spheres cylinders remainder no_buckets dd_append].
  rewrite (foldM_classify_same_key Hks). cbn [bind spheres cylinders remainder mapM snd app].
  rewrite (merge_spheres_given He). reflexivity.
Qed.

(** Radius 1.0 and radius 1.001 have the same key. *)
Lemma merge_primitives_one_group_witness :
  merge_primitives
    (map PSpheres [Sample.full_at_origin; Sample.full_at_ones])
  = Ok [ PSpheres
           (Spheres.mk [Sample.origin; Sample.ones] (Some "#fff")
              (Some 1.0%Q) (Some 0%Q) (Some 6.28%Q)
              (Some [ ("rotations", [[1; 0; 0]%Q; [1; 0; 0]%Q]);
                      ("scales", [Sample.ones; Sample.ones]) ])) ].
Proof.
  apply (@merge_primitives_one_group "#fff_1.00_0.00_6.28"
           Sample.full_at_origin [Sample.full_at_ones]).
  - repeat constructor.
  - repeat constructor.
Defined.

(** X15: Cylinders that all have the same key are merged into one Cylinders:
    the position pairs are concatenated in the order of the input, color and
    radius are those of the first. *)
Theorem merge_primitives_one_group_cylinders (k : string) (c0 : Cylinders.t)
    (cs : list Cylinders.t) :
  Forall (fun c => cylinders_key c = Ok k) (c0 :: cs) ->
  merge_primitives (map PCylinders (c0 :: cs))
  = Ok [ PCylinders
           (Cylinders.mk
              (List.concat (map Cylinders.positionPairs (c0 :: cs)))
              (Cylinders.color c0) (Cylinders.radius c0)) ].
Proof.
  intro Hk. inversion Hk as [|? ? Hk0 Hks]; subst.
  unfold merge_primitives. cbn [map foldM classify]. rewrite Hk0.
  cbn [bind spheres cylinders remainder no_buckets dd_append].
  rewrite (foldM_classify_same_key_cylinders Hks). reflexivity.
Qed.

Lemma merge_primitives_one_group_cylinders_witness :
  merge_primitives
    (map PCylinders
       [ Sample.bond;
         Cylinders.mk [[Sample.ones; Sample.origin]] (Some "#fff")
           (Some 0.504%Q) ])
  = Ok [ PCylinders
           (Cylinders.mk
              [[Sample.origin; Sample.ones]; [Sample.ones; Sample.origin]]
              (Some "#fff") (Some 0.5%Q)) ].
Proof.
  apply (@merge_primitives_one_group_cylinders "#fff_0.50").
  repeat constructor.
Defined.

(** ** Every merged primitive *)

(** X16: a Spheres of the returned list has either no ellipsoids or exactly
    the two lists [rotations] and [scales], with a rotation vector that has an
    entry; any other key of the members' dicts is gone. *)
Theorem merged_ellipsoids_shape (xs out : list Primitive) (n : Spheres.t) :
  merge_primitives xs = Ok out -> In (PSpheres n) out ->
  Spheres.ellipsoids n = None
  \/ exists R S, Spheres.ellipsoids n = Some [ ("rotations", R); ("scales", S) ]
                 /\ any R = true.
Proof.
  intros H Hin. apply merge_primitives_Ok in H.
  destruct H as (b & ns & nc & Hb & Hns & Hnc & ->).
  apply In_spheres_of in Hin. rewrite spheres_of_out in Hin.
  destruct (@mapM_In _ _ _ _ _ _ Hns Hin) as (kv & _ & Hm).
  apply merge_spheres_ellipsoids in Hm. destruct Hm as (rs & ss & _ & _ & He).
  destruct (any (List.concat rs)) eqn:Hany; [right|now left].
  eauto.
Qed.

Lemma merged_ellipsoids_shape_witness :
  Spheres.ellipsoids Sample.no_spheres_merged = None
  \/ exists R S, Spheres.ellipsoids Sample.no_spheres_merged
                 = Some [ ("rotations", R); ("scales", S) ]
                 /\ any R = true.
Proof.
  apply (@merged_ellipsoids_shape [PSpheres Sample.no_spheres]
           [PSpheres Sample.no_spheres_merged]).
  - reflexivity.
  - now left.
Defined.

(** X17: a Spheres of the returned list has the color, radius, phiStart and
    phiEnd of a Spheres of the input, whose positions are the first of its
    positions; a Cylinders of the returned list has the color and radius of a
    Cylinders of the input, whose position pairs are the first of its
    position pairs. *)
Theorem merged_style_from_input (xs out : list Primitive) :
  merge_primitives xs = Ok out ->
  (forall n, In (PSpheres n) out ->
     exists s rest,
       In (PSpheres s) xs
       /\ Spheres.color n = Spheres.color s
       /\ Spheres.radius n = Spheres.radius s
       /\ Spheres.phiStart n = Spheres.phiStart s
       /\ Spheres.phiEnd n = Spheres.phiEnd s
       /\ Spheres.positions n = Spheres.positions s ++ rest)
  /\ (forall n, In (PCylinders n) out ->
     exists c rest,
       In (PCylinders c) xs
       /\ Cylinders.color n = Cylinders.color c
       /\ Cylinders.radius n = Cylinders.radius c
       /\ Cylinders.positionPairs n = Cylinders.positionPairs c ++ rest).
Proof.
  intro H. apply merge_primitives_Ok in H.
  destruct H as (b & ns & nc & Hb & Hns & Hnc & ->). split.
  - intros n Hin. apply In_spheres_of in Hin. rewrite spheres_of_out in Hin.
    destruct (@mapM_In _ _ _ _ _ _ Hns Hin) as (kv & Hkv & Hm).
    unfold merge_spheres in Hm. inv_bind.
    destruct (snd kv) as [|s0 g] eqn:Eg; [discriminate|].
    injection Ha3 as <-. subst n.
    exists s0, (List.concat (map Spheres.positions g)).
    split; [|now repeat split].
    apply (@group_member_In _ _ _ _ Hb Hkv). rewrite Eg. now left.
  - intros n Hin.
    assert (Hin' : In n (cylinders_of
                           (map PSpheres ns ++ map PCylinders nc ++ unmerged xs))).
    { unfold cylinders_of. apply in_flat_map. exists (PCylinders n).
      split; [exact Hin|now left]. }
    rewrite cylinders_of_out in Hin'.
    destruct (@mapM_In _ _ _ _ _ _ Hnc Hin') as (kv & Hkv & Hm).
    unfold merge_cylinders in Hm.
    destruct (snd kv) as [|c0 g] eqn:Eg; [discriminate|].
    cbn in Hm. injection Hm as <-.
    exists c0, (List.concat (map Cylinders.positionPairs g)).
    split; [|now repeat split].
    apply (@group_cylinder_In _ _ _ _ Hb Hkv). rewrite Eg. now left.
Qed.

Lemma merged_style_from_input_witness :
  let xs := [ PSpheres Sample.full_at_origin; PCylinders Sample.bond;
              PSpheres Sample.full_at_ones ] in
  exists out, merge_primitives xs = Ok out
    /\ forall n, In (PCylinders n) out ->
         exists c rest,
           In (PCylinders c) xs
           /\ Cylinders.color n = Cylinders.color c
           /\ Cylinders.radius n = Cylinders.radius c
           /\ Cylinders.positionPairs n = Cylinders.positionPairs c ++ rest.
Proof.
  intro xs.
  exists [ PSpheres
             (Spheres.mk [Sample.origin; Sample.ones] (Some "#fff")
                (Some 1.0%Q) (Some 0%Q) (Some 6.28%Q)
                (Some [ ("rotations", [[1; 0; 0]%Q; [1; 0; 0]%Q]);
                        ("scales", [Sample.ones; Sample.ones]) ]));
           PCylinders Sample.bond ].
  split; [reflexivity|].
  exact (proj2 (@merged_style_from_input xs _ eq_refl)).
Defined.

(** Merging two spheres and a cube, and merging the result once more. *)
Lemma merge_primitives_again_witness :
  let out := [ PSpheres
                 (Spheres.mk [Sample.origin; Sample.ones] (Some "#fff")
                    (Some 1.0%Q) (Some 0%Q) (Some 6.28%Q)
                    (Some [ ("rotations", [[1; 0; 0]%Q; [1; 0; 0]%Q]);
                            ("scales", [Sample.ones; Sample.ones]) ]));
               PCubes Sample.white_cube ] in
  merge_primitives out = Ok out \/ merge_primitives out = Raise TypeError.
Proof.
  intro out.
  exact (proj2 (@merge_primitives_again
                  [ PSpheres Sample.full_at_origin; PCubes Sample.white_cube;
                    PSpheres Sample.full_at_ones ] out eq_refl)).
Defined.

(** ** The groups *)

Section GroupBy.

Lemma In_first_seen l k : In k (first_seen l) <-> In k l.
Proof.
  induction l as [|a l IH]; cbn; [tauto|].
  rewrite filter_In, IH, negb_true_iff, String.eqb_neq.
  destruct (string_dec a k); intuition congruence.
Qed.

Lemma first_seen_snoc l k :
  first_seen (l ++ [k])
  = if existsb (String.eqb k) l then first_seen l else first_seen l ++ [k].
Proof.
  induction l as [|a l IH]; cbn; [reflexivity|].
  rewrite IH. rewrite (String.eqb_sym k a).
  destruct (String.eqb a k) eqn:E; cbn.
  - destruct (existsb (String.eqb k) l); [reflexivity|].
    rewrite filter_app. cbn. rewrite E. cbn. now rewrite app_nil_r.
  - destruct (existsb (String.eqb k) l); [reflexivity|].
    rewrite filter_app. cbn. now rewrite E.
Qed.

Lemma NoDup_first_seen l : NoDup (first_seen l).
Proof.
  induction l as [|a l IH]; cbn; constructor.
  - rewrite filter_In, negb_true_iff, String.eqb_neq. tauto.
  - now apply NoDup_filter.
Qed.

Lemma members_snoc {A : Type} (l : list (string * A)) k x k' :
  members k' (l ++ [(k, x)])
  = members k' l ++ (if String.eqb k k' then [x] else []).
Proof.
  unfold members. rewrite filter_app, map_app. cbn.
  now destruct (String.eqb k k').
Qed.

Lemma members_absent {A : Type} (l : list (string * A)) k :
  existsb (String.eqb k) (map fst l) = false -> members k l = [].
Proof.
  unfold members. induction l as [|[a x] l IH]; cbn; [reflexivity|].
  rewrite (String.eqb_sym k a). destruct (String.eqb a k); cbn; auto.
  discriminate.
Qed.

(** Filing one more element into groups given as a map over distinct keys. *)
Lemma dd_append_map {A : Type} (m : string -> list A) ks k x :
  NoDup ks ->
  dd_append (map (fun k' => (k', m k')) ks) k x
  = map (fun k' => (k', m k' ++ (if String.eqb k k' then [x] else []))) ks
    ++ (if existsb (String.eqb k) ks then [] else [(k, [x])]).
Proof.
  induction 1 as [|a ks Hnin Hnd IH]; cbn; [reflexivity|].
  rewrite (String.eqb_sym k a). destruct (String.eqb a k) eqn:E; cbn.
  - apply String.eqb_eq in E; subst a. rewrite app_nil_r. f_equal.
    apply map_ext_in. intros k' Hk'.
    destruct (String.eqb k k') eqn:E'; [|now rewrite app_nil_r].
    apply String.eqb_eq in E'; subst k'. contradiction.
  - rewrite IH, app_nil_r. reflexivity.
Qed.

Lemma group_by_snoc {A : Type} (l : list (string * A)) k x :
  group_by (l ++ [(k, x)]) = dd_append (group_by l) k x.
Proof.
  unfold group_by.
  rewrite (dd_append_map (fun k' => members k' l) k x
             (NoDup_first_seen (map fst l))).
  rewrite map_app. cbn [map fst]. rewrite first_seen_snoc.
  assert (He : existsb (String.eqb k) (first_seen (map fst l))
               = existsb (String.eqb k) (map fst l)).
  { apply eq_true_iff_eq. rewrite !existsb_exists.
    split; intros (y & Hy & Hk); exists y; split; auto;
      now apply In_first_seen. }
  rewrite He.
  destruct (existsb (String.eqb k) (map fst l)) eqn:E.
  - rewrite app_nil_r. apply map_ext. intro k'. now rewrite members_snoc.
  - rewrite map_app. cbn [map]. f_equal.
    + apply map_ext. intro k'. now rewrite members_snoc.
    + rewrite members_snoc, String.eqb_refl, (members_absent _ _ E).
      reflexivity.
Qed.

Lemma dd_extend_group_by {A : Type} (l : list (string * A)) :
  dd_extend [] l = group_by l.
Proof.
  unfold dd_extend. induction l as [|[k x] l IH] using rev_ind; [reflexivity|].
  rewrite fold_left_app. cbn [fold_left fst snd]. rewrite IH.
  symmetry. apply group_by_snoc.
Qed.

Lemma keyed_Raise_spheres ss e :
  keyed spheres_key ss = Raise e -> e = TypeError.
Proof.
  unfold keyed. intro H. apply mapM_Raise in H. destruct H as (s & _ & H).
  apply bind_Raise in H. destruct H as [H|(k & _ & H)]; [|discriminate].
  apply (classify_Raise no_buckets (PSpheres s)). cbn. now rewrite H.
Qed.

Lemma keyed_Raise_cylinders cs e :
  keyed cylinders_key cs = Raise e -> e = TypeError.
Proof.
  unfold keyed. intro H. apply mapM_Raise in H. destruct H as (c & _ & H).
  apply bind_Raise in H. destruct H as [H|(k & _ & H)]; [|discriminate].
  apply (classify_Raise no_buckets (PCylinders c)). cbn. now rewrite H.
Qed.

(** The first loop files the Spheres and the Cylinders under their keys and
    keeps the rest. *)
Lemma foldM_classify_keyed_lists xs : forall b,
  foldM classify xs b
  = (ls <- keyed spheres_key (spheres_of xs) ;;
     lc <- keyed cylinders_key (cylinders_of xs) ;;
     Ok (mkBuckets (dd_extend (spheres b) ls) (dd_extend (cylinders b) lc)
           (remainder b ++ unmerged xs))).
Proof.
  induction xs as [|p xs IH]; intro b.
  - cbn. rewrite app_nil_r. now destruct b.
  - cbn [foldM].
    destruct p as [s|c| | | | | |];
      try (cbn [classify bind]; rewrite IH;
           cbn [spheres cylinders remainder];
           change (spheres_of (?q :: xs)) with (spheres_of xs);
           change (cylinders_of (?q :: xs)) with (cylinders_of xs);
           unfold unmerged; cbn [filter is_Spheres is_Cylinders orb negb];
           fold (unmerged xs); rewrite <- app_assoc; reflexivity).
    + change (spheres_of (PSpheres s :: xs)) with (s :: spheres_of xs).
      change (cylinders_of (PSpheres s :: xs)) with (cylinders_of xs).
      change (unmerged (PSpheres s :: xs)) with (unmerged xs).
      cbn [classify keyed mapM].
      destruct (spheres_key s) as [k|e]; cbn [bind]; [|reflexivity].
      rewrite IH. cbn [spheres cylinders remainder]. fold (keyed spheres_key (spheres_of xs)).
      destruct (keyed spheres_key (spheres_of xs)); reflexivity.
    + change (spheres_of (PCylinders c :: xs)) with (spheres_of xs).
      change (cylinders_of (PCylinders c :: xs)) with (c :: cylinders_of xs).
      change (unmerged (PCylinders c :: xs)) with (unmerged xs).
      cbn [classify keyed mapM]. fold (keyed cylinders_key (cylinders_of xs)).
      fold (keyed spheres_key (spheres_of xs)).
      destruct (cylinders_key c) as [k|e] eqn:Ek; cbn [bind].
      * rewrite IH. cbn [spheres cylinders remainder].
        destruct (keyed spheres_key (spheres_of xs)); cbn [bind]; [|reflexivity].
        destruct (keyed cylinders_key (cylinders_of xs)); reflexivity.
      * assert (e = TypeError) as ->.
        { apply (classify_Raise b (PCylinders c)). cbn. now rewrite Ek. }
        destruct (keyed spheres_key (spheres_of xs)) as [ls|e'] eqn:Es;
          cbn [bind]; [reflexivity|].
        now rewrite (keyed_Raise_spheres _ Es).
Qed.

Lemma merge_primitives_group_by xs : merge_primitives xs = merge_by_key xs.
Proof.
  unfold merge_primitives, merge_by_key. rewrite foldM_classify_keyed_lists.
  destruct (keyed spheres_key (spheres_of xs)) as [ls|]; cbn [bind];
    [|reflexivity].
  destruct (keyed cylinders_key (cylinders_of xs)) as [lc|]; cbn [bind];
    [|reflexivity].
  cbn [spheres cylinders remainder no_buckets]. rewrite !dd_extend_group_by.
  reflexivity.
Qed.

End GroupBy.

(** X18: [merge_primitives] is a group-by, with the same result and the same
    exception on every input: the Spheres are filed under their keys and the
    Cylinders under theirs; there is one group for each key, in the order in
    which the keys first occur, and a group holds its members in the order of
    the input; each group is merged into one primitive; the merged Spheres
    come first, then the merged Cylinders, then all other primitives in their
    order. *)
Theorem merge_primitives_is_group_by (xs : list Primitive) :
  merge_primitives xs = merge_by_key xs.
Proof. apply merge_primitives_group_by. Qed.

(** X19: the result depends on the Spheres, on the Cylinders and on the other
    primitives as three separate sequences, not on how they are interleaved:
    putting the Spheres first, then the Cylinders, then the rest gives the
    same result, and the same exception. *)
Theorem merge_primitives_interleaving (xs : list Primitive) :
  merge_primitives
    (map PSpheres (spheres_of xs) ++ map PCylinders (cylinders_of xs)
       ++ unmerged xs)
  = merge_primitives xs.
Proof.
  rewrite !merge_primitives_group_by. unfold merge_by_key.
  rewrite spheres_of_out, cylinders_of_out.
  assert (Hu : unmerged (map PSpheres (spheres_of xs)
                           ++ map PCylinders (cylinders_of xs) ++ unmerged xs)
               = unmerged xs).
  { unfold unmerged. rewrite !filter_app.
    assert (H1 : forall l, filter (fun p => negb (is_Spheres p || is_Cylinders p))
                             (map PSpheres l) = [])
      by (induction l; cbn; auto).
    assert (H2 : forall l, filter (fun p => negb (is_Spheres p || is_Cylinders p))
                             (map PCylinders l) = [])
      by (induction l; cbn; auto).
    rewrite H1, H2. cbn [app].
    induction xs as [|[] xs IH]; cbn; congruence. }
  now rewrite Hu.
Qed.

(** ** Keys *)

Section KeyFacts.

Lemma append_assoc (a b c : string) :
  ((a ++ b) ++ c = a ++ b ++ c)%string.
Proof. induction a as [|x a IH]; cbn; [reflexivity|now rewrite IH]. Qed.

Lemma has_underscore_append a b :
  has_underscore (a ++ b)%string = has_underscore a || has_underscore b.
Proof.
  induction a as [|x a IH]; cbn; [reflexivity|].
  now rewrite IH, orb_assoc.
Qed.

(** A string is cut in one way only at its last underscore. *)
Lemma cut_at_last_underscore a b x y :
  has_underscore x = false -> has_underscore y = false ->
  (a ++ "_" ++ x = b ++ "_" ++ y)%string -> a = b /\ x = y.
Proof.
  intros Hx Hy. revert b.
  induction a as [|c a IH]; intros [|c' b] H; cbn in H.
  - injection H as ->. now split.
  - injection H as <- ->.
    rewrite has_underscore_append in Hx. cbn in Hx.
    now rewrite orb_true_r in Hx.
  - injection H as -> <-.
    rewrite has_underscore_append in Hy. cbn in Hy.
    now rewrite orb_true_r in Hy.
  - injection H as -> H. destruct (IH _ H) as (-> & ->). now split.
Qed.

Lemma string_of_uint_no_underscore d :
  has_underscore (NilEmpty.string_of_uint d) = false.
Proof. induction d; cbn; auto. Qed.

Lemma str_Z_no_underscore z : has_underscore (str_Z z) = false.
Proof.
  unfold str_Z, NilZero.string_of_uint.
  destruct (N.to_uint (Z.to_N z)) eqn:E; try reflexivity;
    rewrite <- E; apply string_of_uint_no_underscore.
Qed.

Lemma fmt_2f_no_underscore x : has_underscore (fmt_2f x) = false.
Proof.
  unfold fmt_2f, two_digits.
  rewrite !has_underscore_append, !str_Z_no_underscore.
  now destruct (Qnum x <? 0)%Z.
Qed.

Lemma format_2f_no_underscore o r :
  format_2f o = Ok r -> has_underscore r = false.
Proof.
  destruct o; cbn; intro H; [|discriminate].
  injection H as <-. apply fmt_2f_no_underscore.
Qed.

Lemma key_cut_in_four c r p e c' r' p' e' :
  has_underscore r = false -> has_underscore p = false ->
  has_underscore e = false -> has_underscore r' = false ->
  has_underscore p' = false -> has_underscore e' = false ->
  (c ++ "_" ++ r ++ "_" ++ p ++ "_" ++ e
   = c' ++ "_" ++ r' ++ "_" ++ p' ++ "_" ++ e')%string ->
  c = c' /\ r = r' /\ p = p' /\ e = e'.
Proof.
  intros Hr Hp He Hr' Hp' He' H.
  assert (R : forall a b x,
             (a ++ "_" ++ b ++ "_" ++ x = (a ++ "_" ++ b) ++ "_" ++ x)%string).
  { intros a b x. rewrite append_assoc. reflexivity. }
  rewrite (R c r (p ++ "_" ++ e)%string), (R (c ++ "_" ++ r)%string p e) in H.
  rewrite (R c' r' (p' ++ "_" ++ e')%string),
    (R (c' ++ "_" ++ r')%string p' e') in H.
  apply cut_at_last_underscore in H; [|assumption|assumption].
  destruct H as (H & ->).
  apply cut_at_last_underscore in H; [|assumption|assumption].
  destruct H as (H & ->).
  apply cut_at_last_underscore in H; [|assumption|assumption].
  destruct H as (-> & ->). now repeat split.
Qed.

End KeyFacts.

(** X20: a key is read in one way only, whatever the color (underscores in
    it or not): two Spheres with the same key have the same color text and
    the same radius, phiStart and phiEnd to two decimals, and two Cylinders
    with the same key have the same color text and the same radius to two
    decimals. *)
Theorem keys_are_unambiguous (k : string) :
  (forall s1 s2,
      spheres_key s1 = Ok k -> spheres_key s2 = Ok k ->
      str_color (Spheres.color s1) = str_color (Spheres.color s2)
      /\ format_2f (Spheres.radius s1) = format_2f (Spheres.radius s2)
      /\ format_2f (Spheres.phiStart s1) = format_2f (Spheres.phiStart s2)
      /\ format_2f (Spheres.phiEnd s1) = format_2f (Spheres.phiEnd s2))
  /\ (forall c1 c2,
      cylinders_key c1 = Ok k -> cylinders_key c2 = Ok k ->
      str_color (Cylinders.color c1) = str_color (Cylinders.color c2)
      /\ format_2f (Cylinders.radius c1) = format_2f (Cylinders.radius c2)).
Proof.
  split.
  - intros s1 s2 H1 H2. unfold spheres_key in H1, H2. inv_bind.
    rewrite Ha, Ha0, Ha1, Ha2, Ha3, Ha4.
    apply format_2f_no_underscore in Ha, Ha0, Ha1, Ha2, Ha3, Ha4.
    rewrite <- H2 in H1. clear H2.
    apply key_cut_in_four in H1; try assumption.
    destruct H1 as (Hc & -> & -> & ->). now repeat split.
  - intros c1 c2 H1 H2. unfold cylinders_key in H1, H2. inv_bind.
    rewrite Ha, Ha0. apply format_2f_no_underscore in Ha, Ha0.
    rewrite <- H2 in H1.
    apply cut_at_last_underscore in H1; [|assumption|assumption].
    destruct H1 as (-> & ->). now split.
Qed.

(** The key of the two spheres of radius 1.0 and 1.001. *)
Lemma keys_are_unambiguous_witness :
  format_2f (Spheres.radius Sample.full_at_origin)
  = format_2f (Spheres.radius Sample.full_at_ones).
Proof.
  exact (proj1 (proj2 (proj1 (keys_are_unambiguous "#fff_1.00_0.00_6.28")
                         Sample.full_at_origin Sample.full_at_ones
                         eq_refl eq_refl))).
Defined.
